(** * pytest-flask: the plugin's three autouse fixtures and the JSON mixin

    A shallow embedding of [pytest_flask/plugin.py]:

    - [Py]: the part of Python's class machinery that
      [_make_test_response_class] relies on (class objects with their
      [__dict__], bases and [__mro__]; [type(name, bases, dict)] with the
      C3 merge; attribute resolution along the MRO);
    - [Json]: the [JSONResponse] mixin, whose [json] member is a
      [cached_property] around [json.loads(self.data)];
    - [Plugin]: the fixtures [_monkeypatch_response_class],
      [_push_application_context] and [_configure_application], run by a
      model of the test runner's setup / call / teardown protocol. *)

From Stdlib Require Ascii String.
From stdpp Require Import gmap strings list fin_maps.

Import Stdlib.Strings.Ascii.

Open Scope string_scope.
Open Scope list_scope.

Set Warnings "-register-all,-clear-no-such-hyp".

(** ** Python classes *)

Module Py.

(** Class objects live in a store that only grows; a class is named by its
    index in the store. *)
Definition classid := nat.

(** What a class body binds a name to.  [MJsonProperty] is the
    [cached_property] object built from [JSONResponse.json]; every other
    member (a user's own [json], for one) is opaque and told apart by a
    tag. *)
Inductive member :=
  | MJsonProperty
  | MUser (tag : nat).

#[global] Instance member_eq_dec : EqDecision member.
Proof. solve_decision. Defined.

(** A class object.  [cls_dict] holds the names bound by the class body
    (the entries the interpreter adds on its own, such as [__module__] and
    [__doc__], are not members any claim speaks of and are left out). *)
Record pyclass := PyClass {
  cls_name : string;
  cls_bases : list classid;
  cls_mro : list classid;
  cls_dict : gmap string member
}.

#[global] Instance pyclass_eq_dec : EqDecision pyclass.
Proof. solve_decision. Defined.

(** [object], at index 0 of every store, and the mixin of the plugin,
    [class JSONResponse(object)] with its single member [json], at 1. *)
Definition object_id : classid := 0.
Definition JSONResponse : classid := 1.

Definition object_class : pyclass :=
  PyClass "object" [] [object_id] ∅.

Definition JSONResponse_class : pyclass :=
  PyClass "JSONResponse" [object_id] [JSONResponse; object_id]
          {["json" := MJsonProperty]}.

Definition builtins : list pyclass := [object_class; JSONResponse_class].

(** *** C3 linearisation, as [type.__new__] computes [__mro__] *)

Definition nonempty (s : list classid) : bool :=
  match s with [] => false | _ :: _ => true end.

(** A head is rejected when it occurs in the tail of some sequence. *)
Definition in_some_tail (c : classid) (seqs : list (list classid)) : bool :=
  existsb (λ s, bool_decide (c ∈ tail s)) seqs.

(** First head, in the order of the sequences, that no tail contains. *)
Fixpoint pick_candidate (cands seqs : list (list classid)) : option classid :=
  match cands with
  | [] => None
  | [] :: rest => pick_candidate rest seqs
  | (c :: _) :: rest =>
      if in_some_tail c seqs then pick_candidate rest seqs else Some c
  end.

Definition drop_head (c : classid) (s : list classid) : list classid :=
  match s with
  | x :: t => if decide (x = c) then t else s
  | [] => []
  end.

(** The merge loop; [None] is the [TypeError] "cannot create a consistent
    method resolution order".  Every round removes at least one element, so
    the total length of the sequences is enough fuel. *)
Fixpoint c3_merge (fuel : nat) (seqs : list (list classid)) : option (list classid) :=
  match fuel with
  | O => None
  | S n =>
      match List.filter nonempty seqs with
      | [] => Some []
      | ne =>
          match pick_candidate ne ne with
          | None => None
          | Some c => (c ::.) <$> c3_merge n (drop_head c <$> ne)
          end
      end
  end.

Definition merge_fuel (seqs : list (list classid)) : nat :=
  S (foldr (λ s n, length s + n) 0 seqs).

(** [type(name, bases, dict)]: a new class object is appended to the store;
    its MRO is itself followed by the merge of the bases' MROs and of the
    list of bases.  [None] when a base is dangling or the merge fails.
    The store holds plain classes, whose metaclass is [type]: a base whose
    metaclass or [__init_subclass__] refuses the subclass, or that is no
    acceptable base type, makes the real call raise and is outside this
    model. *)
Definition type_new (name : string) (bases : list classid)
    (d : gmap string member) (h : list pyclass) : option (classid * list pyclass) :=
  mros ← mapM (λ b, cls_mro <$> h !! b) bases;
  let seqs := mros ++ [bases] in
  m ← c3_merge (merge_fuel seqs) seqs;
  let c := length h in
  Some (c, h ++ [PyClass name bases (c :: m) d]).

(** *** Attribute resolution on a class: first hit along [__mro__] *)

Definition own_member (h : list pyclass) (c : classid) (n : string) : option member :=
  k ← h !! c; cls_dict k !! n.

Fixpoint find_member (h : list pyclass) (n : string) (mro : list classid) : option member :=
  match mro with
  | [] => None
  | c :: rest =>
      match own_member h c n with
      | Some m => Some m
      | None => find_member h n rest
      end
  end.

Definition lookup_attr (h : list pyclass) (c : classid) (n : string) : option member :=
  k ← h !! c; find_member h n (cls_mro k).

(** *** The plugin's augmentation *)

(** [str(JSONResponse)], the name given to the synthesised class. *)
Definition str_JSONResponse : string :=
  "<class 'pytest_flask.plugin.JSONResponse'>".

(** What calling the augmentation can raise. *)
Inductive class_error :=
  | NoSuchClass
  | MroTypeError.

(** [_make_test_response_class(response_class)]:
<<
    if 'json' in response_class.__dict__:
        return response_class
    return type(str(JSONResponse), (response_class, JSONResponse), {})
>> *)
Definition _make_test_response_class (response_class : classid)
    (h : list pyclass) : (classid + class_error) * list pyclass :=
  match h !! response_class with
  | None => (inr NoSuchClass, h)
  | Some k =>
      match cls_dict k !! "json" with
      | Some _ => (inl response_class, h)
      | None =>
          match type_new str_JSONResponse [response_class; JSONResponse] ∅ h with
          | Some (c, h') => (inl c, h')
          | None => (inr MroTypeError, h)
          end
      end
  end.

(** The class that [type(...)] builds when the guard does not fire, for a
    [response_class] whose MRO is [rc :: L ++ [object]]: the mixin goes
    just before [object] unless [rc] inherits from it already. *)
Definition wrapper_mro (rc : classid) (L : list classid) : list classid :=
  rc :: (if bool_decide (JSONResponse ∈ L) then L ++ [object_id]
         else L ++ [JSONResponse; object_id]).

Definition wrapper (h : list pyclass) (rc : classid) (L : list classid) : pyclass :=
  PyClass str_JSONResponse [rc; JSONResponse] (length h :: wrapper_mro rc L) ∅.

(** *** Stores the theorems range over *)

(** A new-style class of the store: its MRO starts with the class itself,
    ends with [object], has no repetition and names classes of the store. *)
Definition new_style (h : list pyclass) (c : classid) : bool :=
  match h !! c with
  | None => false
  | Some k =>
      bool_decide (head (cls_mro k) = Some c)
      && bool_decide (last (cls_mro k) = Some object_id)
      && bool_decide (c ≠ object_id)
      && bool_decide (NoDup (cls_mro k))
      && bool_decide (Forall (λ x, x < length h) (cls_mro k))
  end.

(** The two classes every store starts with. *)
Definition store_ok (h : list pyclass) : bool :=
  bool_decide (h !! object_id = Some object_class)
  && bool_decide (h !! JSONResponse = Some JSONResponse_class).

(** A sample store: Flask's [Response], a user's response class with its
    own [json], and a subclass of the latter that inherits it. *)
Definition FlaskResponse : classid := 2.
Definition UserJson : classid := 3.
Definition InheritsJson : classid := 4.

Definition sample_store : list pyclass :=
  builtins ++
  [ PyClass "Response" [object_id] [FlaskResponse; object_id] ∅;
    PyClass "UserJson" [FlaskResponse] [UserJson; FlaskResponse; object_id]
            {["json" := MUser 7]};
    PyClass "InheritsJson" [UserJson]
            [InheritsJson; UserJson; FlaskResponse; object_id] ∅ ].

End Py.

(** ** The JSON mixin *)

Module Json.
Import Py.

(** Python objects a JSON document decodes to. *)
Inductive value :=
  | JNull
  | JBool (b : bool)
  | JNum (z : Z)
  | JStr (s : string)
  | JList (l : list value)
  | JDict (m : gmap string value).

(** A response object: its class, the body [self.data] and the instance
    [__dict__], which is where [cached_property] keeps what it computed. *)
Record response := MkResponse {
  resp_class : classid;
  data : string;
  inst_dict : gmap string value
}.

(** Instantiating a response class.  [JSONResponse] defines no [__init__]:
    construction of an augmented response is the original class's, and
    leaves the instance dictionary without a [json] entry. *)
Definition new_response (cls : classid) (body : string) : response :=
  MkResponse cls body ∅.

Inductive exn :=
  | DecodeError (reason : string)
  | AttributeError (name : string).

(** What reading [res.json] gives: a decoded object, or the user's own
    member when the class resolves [json] to one. *)
Inductive attr :=
  | Decoded (v : value)
  | UserAttr (tag : nat).

(** The state a read acts on: the response object and the bodies handed to
    the codec so far, oldest first. *)
Record jstate := JState {
  obj : response;
  loads_calls : list string
}.

Section Accessor.

(** [flask.json.loads], the codec of the application: the decoded object, or
    the message of the error it raises. *)
Variable loads : string → value + string.

(** [JSONResponse.json(self)], the function under the decorator:
    [return json.loads(self.data)]. *)
Definition JSONResponse_json (st : jstate) : (value + exn) * jstate :=
  let st' := JState (obj st) (loads_calls st ++ [data (obj st)]) in
  match loads (data (obj st)) with
  | inl v => (inl v, st')
  | inr reason => (inr (DecodeError reason), st')
  end.

(** [cached_property.__get__] of werkzeug, for the property named [json]:
<<
    value = obj.__dict__.get(self.__name__, _missing)
    if value is _missing:
        value = self.func(obj)
        obj.__dict__[self.__name__] = value
    return value
>> *)
Definition cached_property_get (st : jstate) : (value + exn) * jstate :=
  match inst_dict (obj st) !! "json" with
  | Some v => (inl v, st)
  | None =>
      match JSONResponse_json st with
      | (inl v, st') =>
          let o := obj st' in
          (inl v, JState (MkResponse (resp_class o) (data o)
                                     (<["json" := v]> (inst_dict o)))
                         (loads_calls st'))
      | (inr e, st') => (inr e, st')
      end
  end.

(** Reading a member [json] of the user's on an instance: a plain class
    attribute is returned as it is, a property or another descriptor runs
    the user's getter, which may do anything to the instance and to the
    codec. *)
Variable user_getter : nat → jstate → (attr + exn) * jstate.

(** Reading [res.json] on an instance: the member is resolved on the
    instance's class along its MRO. *)
Definition get_json (h : list pyclass) (st : jstate) : (attr + exn) * jstate :=
  match lookup_attr h (resp_class (obj st)) "json" with
  | Some MJsonProperty =>
      match cached_property_get st with
      | (inl v, st') => (inl (Decoded v), st')
      | (inr e, st') => (inr e, st')
      end
  | Some (MUser tag) => user_getter tag st
  | None =>
      match inst_dict (obj st) !! "json" with
      | Some v => (inl (Decoded v), st)
      | None => (inr (AttributeError "json"), st)
      end
  end.

End Accessor.

(** A member of the user's that is a plain class attribute. *)
Definition plain_attribute (tag : nat) (st : jstate) : (attr + exn) * jstate :=
  (inl (UserAttr tag), st).

(** *** A reference codec

    A decoder for a fragment of JSON (objects, arrays, strings without
    escapes, integers, [true], [false], [null]), to run the accessor on
    concrete bodies.  A document of the fragment is decoded as
    [json.loads] decodes it; floating-point numbers and escaped characters
    are outside the fragment and refused, and the messages are not the
    text of any interpreter's.  The theorems hold for any codec. *)

Definition dquote : ascii := "034"%char.
Definition backslash : ascii := "092"%char.

Definition is_ws (c : ascii) : bool :=
  let n := nat_of_ascii c in
  ((n =? 32) || (n =? 9) || (n =? 10) || (n =? 13))%nat.

Fixpoint skip_ws (s : list ascii) : list ascii :=
  match s with
  | c :: r => if is_ws c then skip_ws r else s
  | [] => []
  end.

Fixpoint scan_string (s : list ascii) : option (string * list ascii) :=
  match s with
  | [] => None
  | c :: r =>
      if decide (c = dquote) then Some ("", r)
      else if decide (c = backslash) then None
      else if (nat_of_ascii c <? 32)%nat then None
      else '(t, r') ← scan_string r; Some (String c t, r')
  end.

Definition digit (c : ascii) : option Z :=
  let n := nat_of_ascii c in
  if ((48 <=? n) && (n <=? 57))%nat then Some (Z.of_nat (n - 48)) else None.

Fixpoint scan_digits (acc : Z) (s : list ascii) : Z * list ascii :=
  match s with
  | c :: r =>
      match digit c with
      | Some d => scan_digits (10 * acc + d) r
      | None => (acc, s)
      end
  | [] => (acc, [])
  end.

(** An integer: a single [0], or a digit other than [0] and the digits
    that follow it. *)
Definition scan_int (s : list ascii) : Z * list ascii :=
  match s with
  | c :: r => if decide (c = "0"%char) then (0%Z, r) else scan_digits 0 s
  | [] => (0%Z, [])
  end.

Definition scan_literal (lit : string) (v : value) (s : list ascii)
    : option (value * list ascii) :=
  let l := String.list_ascii_of_string lit in
  if decide (take (length l) s = l) then Some (v, drop (length l) s) else None.

(** Members of an object after the opening brace; a repeated key keeps its
    last value, as in a Python [dict]. *)
Fixpoint decode_members (dv : list ascii → option (value * list ascii))
    (n : nat) (s : list ascii) : option (gmap string value * list ascii) :=
  match n with
  | O => None
  | S n =>
      match skip_ws s with
      | c :: r =>
          if decide (c = dquote) then
            '(k, r1) ← scan_string r;
            match skip_ws r1 with
            | c1 :: r2 =>
                if decide (c1 = ":"%char) then
                  '(v, r3) ← dv r2;
                  match skip_ws r3 with
                  | c3 :: r4 =>
                      if decide (c3 = ","%char) then
                        '(m, r5) ← decode_members dv n r4;
                        Some (m ∪ {[k := v]}, r5)
                      else if decide (c3 = "}"%char) then Some ({[k := v]}, r4)
                      else None
                  | [] => None
                  end
                else None
            | [] => None
            end
          else None
      | [] => None
      end
  end.

Fixpoint decode_elements (dv : list ascii → option (value * list ascii))
    (n : nat) (s : list ascii) : option (list value * list ascii) :=
  match n with
  | O => None
  | S n =>
      '(v, r1) ← dv s;
      match skip_ws r1 with
      | c :: r2 =>
          if decide (c = ","%char) then
            '(l, r3) ← decode_elements dv n r2; Some (v :: l, r3)
          else if decide (c = "]"%char) then Some ([v], r2)
          else None
      | [] => None
      end
  end.

Fixpoint decode_value (n : nat) (s : list ascii) : option (value * list ascii) :=
  match n with
  | O => None
  | S n =>
      match skip_ws s with
      | [] => None
      | c :: r =>
          if decide (c = dquote) then
            '(t, r') ← scan_string r; Some (JStr t, r')
          else if decide (c = "{"%char) then
            match skip_ws r with
            | c' :: r' =>
                if decide (c' = "}"%char) then Some (JDict ∅, r')
                else '(m, r1) ← decode_members (decode_value n) n r; Some (JDict m, r1)
            | [] => None
            end
          else if decide (c = "["%char) then
            match skip_ws r with
            | c' :: r' =>
                if decide (c' = "]"%char) then Some (JList [], r')
                else '(l, r1) ← decode_elements (decode_value n) n r; Some (JList l, r1)
            | [] => None
            end
          else if decide (c = "-"%char) then
            match r with
            | d :: _ =>
                if digit d is Some _ then let '(z, r') := scan_int r in Some (JNum (- z), r')
                else None
            | [] => None
            end
          else if digit c is Some _ then
            let '(z, r') := scan_int (c :: r) in Some (JNum z, r')
          else if decide (c = "t"%char) then scan_literal "true" (JBool true) (c :: r)
          else if decide (c = "f"%char) then scan_literal "false" (JBool false) (c :: r)
          else if decide (c = "n"%char) then scan_literal "null" JNull (c :: r)
          else None
      end
  end.

Definition ref_loads (s : string) : value + string :=
  let l := String.list_ascii_of_string s in
  match decode_value (S (length l)) l with
  | Some (v, rest) =>
      match skip_ws rest with
      | [] => inl v
      | _ :: _ => inr "extra data after the document"
      end
  | None => inr "not a JSON document"
  end.

(** The body [{"ping": "pong"}] of the docstring's example, and the mapping
    it stands for. *)
Definition ping_body : string :=
  "{" +:+ String dquote "ping" +:+ String dquote ": "
      +:+ String dquote "pong" +:+ String dquote "}".

Definition ping_mapping : value := JDict {["ping" := JStr "pong"]}.

(** [res.data = body]: the body is replaced, the instance dictionary is
    left as it is. *)
Definition set_data (body : string) (st : jstate) : jstate :=
  JState (MkResponse (resp_class (obj st)) body (inst_dict (obj st)))
         (loads_calls st).

End Json.

(** ** The fixtures and the runner *)

Module Plugin.
Import Py.

(** Values of configuration keys and of marker keyword arguments. *)
Inductive pyval :=
  | VNone
  | VBool (b : bool)
  | VInt (z : Z)
  | VStr (s : string).

(** The application object: its [config] mapping and its [response_class]
    slot. *)
Record app := App {
  config : gmap string pyval;
  response_class : classid
}.

(** Calls on request contexts, in the order they happen: [ctx.push()] and
    [ctx.pop()] on the context numbered [c], with whether the call
    returned; and the call of the test function. *)
Inductive event :=
  | EvPush (c : nat) (returned : bool)
  | EvPop (c : nat) (returned : bool)
  | EvBody.

#[global] Instance event_eq_dec : EqDecision event.
Proof. solve_decision. Defined.

(** The callables handed to [request.addfinalizer]: the closure [teardown]
    of [_push_application_context], holding its [ctx], and the bound method
    [mpatch.undo] that the runner's [monkeypatch] fixture registers. *)
Inductive finalizer :=
  | FinPop (ctx : nat)
  | FinUndo.

Inductive exn :=
  | AppFixtureError
  | ContextError
  | PushError
  | PopError
  | ConfigError
  | AttributeError
  | ClassError (e : class_error).

(** Everything a test run can change.  [setattr_log] is the [_setattr]
    list of the [monkeypatch] object, which only ever records old values of
    [app.response_class], most recent first; [finalizers] are most recent
    first as well. *)
Record world := World {
  classes : list pyclass;
  the_app : app;
  next_ctx : nat;
  trace : list event;
  setattr_log : list classid;
  finalizers : list finalizer
}.

(** What [request.keywords] can hold under a name: the marker of that
    name, with its keyword arguments, or an object of another kind, one
    without an attribute [kwargs], with its truth value; the name of a node
    that the test was collected under is mapped to [True]. *)
Inductive keyword :=
  | KwMarker (kwargs : list (string * pyval))
  | KwObject (truthy : bool).

(** What the test and the collaborators do in one run: the names the test
    requests, what [request.keywords.get('app', None)] returns ([None] is
    the default), whether the [app] fixture, [app.test_request_context()],
    [ctx.push()] and [ctx.pop()] return or raise, what [key.upper()]
    returns on the interpreter that runs the test (byte-wise on Python 2,
    by Unicode's case mapping on Python 3), which assignments
    [app.config[key] = value] the application accepts (Flask's own mapping
    accepts all), and the test function, which may change the application
    and passes or fails. *)
Record scenario := Scenario {
  fixturenames : list string;
  app_keyword : option keyword;
  app_fixture_ok : bool;
  context_ok : bool;
  push_ok : bool;
  pop_ok : bool;
  str_upper : string → string;
  config_ok : string → pyval → bool;
  test_body : app → app * bool
}.

(** Code that changes the world and returns or raises; what was changed
    before an exception stays changed. *)
Definition M (A : Type) : Type := world → (A + exn) * world.

Definition ret {A} (x : A) : M A := λ w, (inl x, w).
Definition raise {A} (e : exn) : M A := λ w, (inr e, w).
Definition bind {A B} (m : M A) (k : A → M B) : M B :=
  λ w, match m w with
       | (inl x, w') => k x w'
       | (inr e, w') => (inr e, w')
       end.

Declare Scope py_scope.
Delimit Scope py_scope with py.
Notation "x <- m ;; k" := (bind m (λ x, k))
  (at level 100, m at next level, right associativity) : py_scope.
Notation "m ;; k" := (bind m (λ _, k))
  (at level 100, right associativity) : py_scope.
Open Scope py_scope.

Definition log (e : event) : M unit :=
  λ w, (inl (), World (classes w) (the_app w) (next_ctx w) (trace w ++ [e])
                      (setattr_log w) (finalizers w)).

(** [request.addfinalizer(f)] *)
Definition addfinalizer (f : finalizer) : M unit :=
  λ w, (inl (), World (classes w) (the_app w) (next_ctx w) (trace w)
                      (setattr_log w) (f :: finalizers w)).

(** ['app' in request.fixturenames] *)
Definition requests_app (sc : scenario) : bool :=
  bool_decide ("app" ∈ fixturenames sc).

(** [request.getfuncargvalue('app')]: the application, or the exception of
    its fixture. *)
Definition getfuncargvalue_app (sc : scenario) : M app :=
  λ w, if app_fixture_ok sc then (inl (the_app w), w) else (inr AppFixtureError, w).

(** [monkeypatch.setattr(app, 'response_class', value)]: the old value is
    recorded, then the slot is assigned. *)
Definition monkeypatch_setattr (value : classid) : M unit :=
  λ w, let a := the_app w in
       (inl (), World (classes w) (App (config a) value) (next_ctx w) (trace w)
                      (response_class a :: setattr_log w) (finalizers w)).

(** [monkeypatch.undo()]: the recorded values are assigned back, most recent
    first, and the record is emptied. *)
Definition monkeypatch_undo : M unit :=
  λ w, let a := the_app w in
       (inl (), World (classes w)
                      (App (config a)
                           (foldl (λ _ old, old) (response_class a) (setattr_log w)))
                      (next_ctx w) (trace w) [] (finalizers w)).

(** The runner's [monkeypatch] fixture, which [_monkeypatch_response_class]
    takes as an argument: [request.addfinalizer(mpatch.undo)]. *)
Definition monkeypatch_fixture : M unit := addfinalizer FinUndo.

(** The call of [_make_test_response_class] on the class store. *)
Definition make_test_response_class (rc : classid) : M classid :=
  λ w, match _make_test_response_class rc (classes w) with
       | (inl c, h) => (inl c, World h (the_app w) (next_ctx w) (trace w)
                                     (setattr_log w) (finalizers w))
       | (inr e, h) => (inr (ClassError e), w)
       end.

(** [_monkeypatch_response_class(request, monkeypatch)]:
<<
    if 'app' not in request.fixturenames:
        return
    app = request.getfuncargvalue('app')
    monkeypatch.setattr(app, 'response_class',
                        _make_test_response_class(app.response_class))
>> *)
Definition _monkeypatch_response_class (sc : scenario) : M unit :=
  if negb (requests_app sc) then ret ()
  else
    a <- getfuncargvalue_app sc ;;
    c <- make_test_response_class (response_class a) ;;
    monkeypatch_setattr c.

(** [app.test_request_context()]: a context object not seen before. *)
Definition test_request_context (sc : scenario) : M nat :=
  λ w, if context_ok sc
       then (inl (next_ctx w), World (classes w) (the_app w) (S (next_ctx w))
                                     (trace w) (setattr_log w) (finalizers w))
       else (inr ContextError, w).

Definition ctx_push (sc : scenario) (c : nat) : M unit :=
  log (EvPush c (push_ok sc)) ;;
  if push_ok sc then ret () else raise PushError.

Definition ctx_pop (sc : scenario) (c : nat) : M unit :=
  log (EvPop c (pop_ok sc)) ;;
  if pop_ok sc then ret () else raise PopError.

(** [_push_application_context(request)]:
<<
    if 'app' not in request.fixturenames:
        return
    app = request.getfuncargvalue('app')
    ctx = app.test_request_context()
    ctx.push()
    def teardown():
        ctx.pop()
    request.addfinalizer(teardown)
>> *)
Definition _push_application_context (sc : scenario) : M unit :=
  if negb (requests_app sc) then ret ()
  else
    _ <- getfuncargvalue_app sc ;;
    ctx <- test_request_context sc ;;
    ctx_push sc ctx ;;
    addfinalizer (FinPop ctx).

(** [str.upper] on ASCII text, where every interpreter agrees: [a]..[z] go
    to [A]..[Z] and the other characters stay.  (It is also [str.upper] of
    Python 2 on every byte string.) *)
Definition upper_ascii (c : ascii) : ascii :=
  let n := nat_of_ascii c in
  if ((97 <=? n) && (n <=? 122))%nat then ascii_of_nat (n - 32) else c.

Fixpoint upper (s : string) : string :=
  match s with
  | EmptyString => EmptyString
  | String c r => String (upper_ascii c) (upper r)
  end.

(** Text made of ASCII characters only. *)
Fixpoint ascii_only (s : string) : bool :=
  match s with
  | EmptyString => true
  | String c r => (nat_of_ascii c <? 128)%nat && ascii_only r
  end.

(** The small letter sharp s, in UTF-8, and an upper-casing that follows
    Python 3 on texts made of ASCII characters and sharp s: the sharp s
    goes to [SS]. *)
Definition eszett : string := String "195"%char (String "159"%char EmptyString).

Fixpoint upper_unicode (s : string) : string :=
  match s with
  | EmptyString => EmptyString
  | String c1 r =>
      match r with
      | String c2 r' =>
          if ((nat_of_ascii c1 =? 195) && (nat_of_ascii c2 =? 159))%nat
          then String "S"%char (String "S"%char (upper_unicode r'))
          else String (upper_ascii c1) (upper_unicode r)
      | EmptyString => String (upper_ascii c1) EmptyString
      end
  end.

(** [app.config[key] = value] *)
Definition config_setitem (sc : scenario) (key : string) (value : pyval) : M unit :=
  λ w, if config_ok sc key value
       then (inl (), World (classes w)
                           (App (<[key := value]> (config (the_app w)))
                                (response_class (the_app w)))
                           (next_ctx w) (trace w) (setattr_log w) (finalizers w))
       else (inr ConfigError, w).

(** [for key, value in options.kwargs.items(): app.config[key.upper()] = value] *)
Fixpoint apply_options (sc : scenario) (kwargs : list (string * pyval)) : M unit :=
  match kwargs with
  | [] => ret ()
  | (key, value) :: rest =>
      config_setitem sc (str_upper sc key) value ;; apply_options sc rest
  end.

(** The mapping the loop leaves when every assignment is accepted, for the
    upper-casing [up]. *)
Definition options_written (up : string → string) (kwargs : list (string * pyval))
    (cfg : gmap string pyval) : gmap string pyval :=
  foldl (λ c kv, <[up kv.1 := kv.2]> c) cfg kwargs.

(** [_configure_application(request)]:
<<
    if 'app' not in request.fixturenames:
        return
    app = request.getfuncargvalue('app')
    options = request.keywords.get('app', None)
    if options:
        for key, value in options.kwargs.items():
            app.config[key.upper()] = value
>>
    An object that is no marker has no attribute [kwargs]: when it is true,
    [options.kwargs] raises [AttributeError]. *)
Definition _configure_application (sc : scenario) : M unit :=
  if negb (requests_app sc) then ret ()
  else
    _ <- getfuncargvalue_app sc ;;
    match app_keyword sc with
    | None | Some (KwObject false) => ret ()
    | Some (KwObject true) => raise AttributeError
    | Some (KwMarker kwargs) => apply_options sc kwargs
    end.

(** *** The runner: setup, call, teardown *)

(** The three autouse fixtures of the plugin. *)
Inductive fixture :=
  | monkeypatch_response_class
  | push_application_context
  | configure_application.

#[global] Instance fixture_eq_dec : EqDecision fixture.
Proof. solve_decision. Defined.

(** Calling a fixture function: the runner first sets up the fixtures the
    function takes as arguments, here [monkeypatch]. *)
Definition run_fixture (sc : scenario) (f : fixture) : M unit :=
  match f with
  | monkeypatch_response_class => monkeypatch_fixture ;; _monkeypatch_response_class sc
  | push_application_context => _push_application_context sc
  | configure_application => _configure_application sc
  end.

(** Setup runs the fixtures in the runner's order and stops at the first
    exception. *)
Fixpoint setup (sc : scenario) (order : list fixture) : M unit :=
  match order with
  | [] => ret ()
  | f :: rest => run_fixture sc f ;; setup sc rest
  end.

Definition call_finalizer (sc : scenario) (f : finalizer) : M unit :=
  match f with
  | FinPop c => ctx_pop sc c
  | FinUndo => monkeypatch_undo
  end.

(** Teardown calls every registered finalizer, most recent first; one that
    raises does not keep the others from running. *)
Fixpoint run_finalizers (sc : scenario) (fs : list finalizer) (w : world)
    : list exn * world :=
  match fs with
  | [] => ([], w)
  | f :: rest =>
      match call_finalizer sc f w with
      | (inl _, w') => run_finalizers sc rest w'
      | (inr e, w') =>
          let '(es, w'') := run_finalizers sc rest w' in (e :: es, w'')
      end
  end.

Definition teardown (sc : scenario) (w : world) : list exn * world :=
  run_finalizers sc (finalizers w)
    (World (classes w) (the_app w) (next_ctx w) (trace w) (setattr_log w) []).

(** The call of the test function. *)
Definition call_body (sc : scenario) (w : world) : bool * world :=
  let '(a, passed) := test_body sc (the_app w) in
  (passed, World (classes w) a (next_ctx w) (trace w ++ [EvBody])
                 (setattr_log w) (finalizers w)).

(** What the runner reports: the exception of setup if there was one (the
    test function is then not called), the outcome of the call, and the
    exceptions of teardown. *)
Record report := Report {
  setup_error : option exn;
  call_passed : option bool;
  teardown_errors : list exn
}.

(** One test, on a class store and an application, with a new request and
    a new [monkeypatch] object. *)
Definition runtest (sc : scenario) (order : list fixture)
    (h : list pyclass) (a : app) : report * world :=
  let w0 := World h a 0 [] [] [] in
  match setup sc order w0 with
  | (inl _, w1) =>
      let '(passed, w2) := call_body sc w1 in
      let '(es, w3) := teardown sc w2 in
      (Report None (Some passed) es, w3)
  | (inr e, w1) =>
      let '(es, w3) := teardown sc w1 in
      (Report (Some e) None es, w3)
  end.

(** *** Reading a trace *)

(** Contexts on which [push] was called, those on which it returned, and
    those on which [pop] was called, each in the order of the calls. *)
Definition push_calls (tr : list event) : list nat :=
  omap (λ e, match e with EvPush c _ => Some c | _ => None end) tr.

Definition activated (tr : list event) : list nat :=
  omap (λ e, match e with EvPush c true => Some c | _ => None end) tr.

Definition pop_calls (tr : list event) : list nat :=
  omap (λ e, match e with EvPop c _ => Some c | _ => None end) tr.

Definition body_ran (tr : list event) : bool :=
  bool_decide (EvBody ∈ tr).

(** Contexts whose [teardown] closure is registered, most recent first. *)
Definition pending_pops (fs : list finalizer) : list nat :=
  omap (λ f, match f with FinPop c => Some c | FinUndo => None end) fs.

(** *** Invariants of setup *)

(** Contexts: while the fixtures run, nothing has been popped, the test
    function has not been called, the registered [teardown] closures hold
    the activated contexts, most recent first, and each context object is
    activated at most once. *)
Definition ctx_inv (w : world) : Prop :=
  pop_calls (trace w) = [] ∧
  (EvBody ∉ trace w) ∧
  pending_pops (finalizers w) = reverse (activated (trace w)) ∧
  Forall (λ c, c < next_ctx w) (activated (trace w)) ∧
  NoDup (activated (trace w)).

(** Response class: either nothing is patched and the slot holds the class
    [s0] it held when the test began, or the oldest record of the
    [monkeypatch] object is [s0] and its [undo] is registered. *)
Definition slot_inv (s0 : classid) (w : world) : Prop :=
  (setattr_log w = [] ∧ response_class (the_app w) = s0) ∨
  (last (setattr_log w) = Some s0 ∧ FinUndo ∈ finalizers w).

(** What the patched slot resolves [json] to, given what the class first
    in the slot resolved it to. *)
Definition json_target (orig : option member) : option member :=
  match orig with Some m => Some m | None => Some MJsonProperty end.

(** Response class and store: the slot holds a new-style class of the
    store, which resolves [json] as the first class did while nothing is
    patched, and to [json_target] once a patch is recorded. *)
Definition patched_inv (orig : option member) (w : world) : Prop :=
  store_ok (classes w) = true ∧
  new_style (classes w) (response_class (the_app w)) = true ∧
  lookup_attr (classes w) (response_class (the_app w)) "json"
  = match setattr_log w with [] => orig | _ :: _ => json_target orig end.

(** Unfolds the fixtures and the primitives they are written with. *)
Ltac unfold_py :=
  unfold run_fixture, call_finalizer, _configure_application,
    _push_application_context, _monkeypatch_response_class,
    monkeypatch_fixture, monkeypatch_undo,
    getfuncargvalue_app, make_test_response_class, monkeypatch_setattr,
    test_request_context, ctx_push, ctx_pop, addfinalizer, config_setitem, log,
    bind, ret, raise in *.

(** *** Sample runs *)

(** The order of section 2 of the specification: augment, activate,
    configure. *)
Definition spec_order : list fixture :=
  [monkeypatch_response_class; push_application_context; configure_application].

Definition sample_app : app := App {["DEBUG" := VBool true]} FlaskResponse.

(** A test that requests [app], carries [@pytest.mark.app(debug=False)],
    replaces the response class by hand and fails. *)
Definition failing_test : scenario :=
  Scenario ["client"; "app"] (Some (KwMarker [("debug", VBool false)]))
           true true true true upper (λ _ _, true) (λ a, (App (config a) UserJson, false)).

(** The same test with a [ctx.push()] that raises. *)
Definition push_raises : scenario :=
  Scenario ["client"; "app"] (Some (KwMarker [("debug", VBool false)]))
           true true false true upper (λ _ _, true) (λ a, (App (config a) UserJson, false)).

(** The same test on an application that rejects the option: setup raises
    after the context was activated. *)
Definition config_raises : scenario :=
  Scenario ["client"; "app"] (Some (KwMarker [("debug", VBool false)]))
           true true true true upper (λ _ _, false) (λ a, (App (config a) UserJson, false)).

(** A test that does not request [app]. *)
Definition plain_test : scenario :=
  Scenario ["tmpdir"] (Some (KwMarker [("debug", VBool false)]))
           true true true true upper (λ _ _, true) (λ a, (a, true)).

(** A test that requests [app] and has no marker. *)
Definition unmarked_test : scenario :=
  Scenario ["app"] None true true true true upper (λ _ _, true) (λ a, (a, true)).

(** A test marked [app(debug=True, DEBUG=False)]: two options with one
    upper-cased name. *)
Definition colliding_test : scenario :=
  Scenario ["app"] (Some (KwMarker [("debug", VBool true); ("DEBUG", VBool false)]))
           true true true true upper (λ _ _, true) (λ a, (a, true)).

(** A test marked [app(debug=False, port=80, testing=True)] on an
    application that accepts no [PORT]. *)
Definition rejecting_test : scenario :=
  Scenario ["app"]
           (Some (KwMarker [("debug", VBool false); ("port", VInt 80);
                            ("testing", VBool true)]))
           true true true true
           upper (λ key _, negb (bool_decide (key = "PORT"))) (λ a, (a, true)).

(** A test whose [app] fixture raises. *)
Definition app_fixture_raises : scenario :=
  Scenario ["app"] (Some (KwMarker [("debug", VBool false)]))
           false true true true upper (λ _ _, true) (λ a, (a, true)).

(** A test without a marker, collected under a node named [app]:
    [request.keywords.get('app')] is [True]. *)
Definition under_node_app : scenario :=
  Scenario ["app"] (Some (KwObject true)) true true true true upper
           (λ _ _, true) (λ a, (a, true)).

(** A test marked with the options [strasse=1] and [stra\195\159e=2] (the
    second is written with a sharp s), run on Python 3. *)
Definition sharp_s_test : scenario :=
  Scenario ["app"]
           (Some (KwMarker [("strasse", VInt 1);
                            ("stra" +:+ eszett +:+ "e", VInt 2)]))
           true true true true upper_unicode (λ _ _, true) (λ a, (a, true)).

End Plugin.

(** ** Facts about the class model and the augmentation *)

Open Scope nat_scope.

Module AugmentFacts.
Import Py.

Section Merge.

Lemma in_some_tail_false c seqs :
  Forall (λ s, c ∉ tail s) seqs → in_some_tail c seqs = false.
Proof.
  unfold in_some_tail. induction 1 as [|s seqs Hs _ IH]; [done|].
  cbn [existsb]. by rewrite bool_decide_eq_false_2, IH.
Qed.

(** Once [JSONResponse] is out of the way, the MRO of the first base is
    taken as it is. *)
Lemma merge_rest (L : list classid) fuel :
  NoDup (L ++ [object_id]) →
  length L + 2 ≤ fuel →
  c3_merge fuel [L ++ [object_id]; [object_id]; []] = Some (L ++ [object_id]) ∧
  c3_merge fuel [L ++ [object_id]; [object_id]] = Some (L ++ [object_id]).
Proof.
  revert fuel. induction L as [|x L IH]; intros fuel Hnd Hfuel.
  - destruct fuel as [|[|fuel]]; [simpl in Hfuel; lia..|]. done.
  - destruct fuel as [|fuel]; [simpl in Hfuel; lia|].
    cbn [app] in Hnd. apply NoDup_cons in Hnd as [Hx Hnd].
    assert (in_some_tail x [x :: L ++ [object_id]; [object_id]] = false) as Hpick.
    { apply in_some_tail_false. repeat constructor; cbn [tail]; [done|set_solver]. }
    pose proof (proj2 (IH fuel Hnd ltac:(simpl in Hfuel; lia))) as IH2.
    assert (x ≠ object_id) as Hx0 by set_solver.
    cbn [c3_merge List.filter nonempty app pick_candidate].
    rewrite Hpick. cbn [fmap list_fmap drop_head].
    rewrite decide_True by done. rewrite decide_False by done.
    by rewrite IH2.
Qed.

(** A first base that does not inherit from [JSONResponse]: the mixin goes
    between the base's classes and [object]. *)
Lemma merge_absent (L : list classid) fuel :
  NoDup (L ++ [object_id]) →
  JSONResponse ∉ L →
  length L + 3 ≤ fuel →
  c3_merge fuel [L ++ [object_id]; [JSONResponse; object_id]; [JSONResponse]]
  = Some (L ++ [JSONResponse; object_id]).
Proof.
  revert fuel. induction L as [|x L IH]; intros fuel Hnd HJ Hfuel.
  - destruct fuel as [|[|[|fuel]]]; [simpl in Hfuel; lia..|]. done.
  - destruct fuel as [|fuel]; [simpl in Hfuel; lia|].
    cbn [app] in Hnd. apply NoDup_cons in Hnd as [Hx Hnd].
    assert (x ≠ JSONResponse ∧ JSONResponse ∉ L) as [HxJ HJL] by set_solver.
    assert (in_some_tail x [x :: L ++ [object_id]; [JSONResponse; object_id];
                            [JSONResponse]] = false) as Hpick.
    { apply in_some_tail_false. repeat constructor; cbn [tail]; set_solver. }
    cbn [c3_merge List.filter nonempty app pick_candidate].
    rewrite Hpick. cbn [fmap list_fmap drop_head].
    rewrite decide_True by done. rewrite !decide_False by done.
    rewrite IH by (done || simpl in Hfuel; lia). done.
Qed.

(** A first base that already inherits from [JSONResponse]: its MRO is
    taken as it is. *)
Lemma merge_present (L1 L2 : list classid) fuel :
  NoDup (L1 ++ JSONResponse :: L2 ++ [object_id]) →
  length L1 + length L2 + 3 ≤ fuel →
  c3_merge fuel [L1 ++ JSONResponse :: L2 ++ [object_id];
                 [JSONResponse; object_id]; [JSONResponse]]
  = Some (L1 ++ JSONResponse :: L2 ++ [object_id]).
Proof.
  revert fuel. induction L1 as [|x L1 IH]; intros fuel Hnd Hfuel.
  - destruct fuel as [|fuel]; [simpl in Hfuel; lia|].
    cbn [app] in Hnd. apply NoDup_cons in Hnd as [HJ Hnd].
    assert (in_some_tail JSONResponse
              [JSONResponse :: L2 ++ [object_id]; [JSONResponse; object_id];
               [JSONResponse]] = false) as Hpick.
    { apply in_some_tail_false. repeat constructor; cbn [tail]; set_solver. }
    cbn [c3_merge List.filter nonempty app pick_candidate].
    rewrite Hpick. cbn [fmap list_fmap drop_head].
    rewrite !decide_True by done.
    rewrite (proj1 (merge_rest L2 fuel Hnd ltac:(simpl in Hfuel; lia))). done.
  - destruct fuel as [|fuel]; [simpl in Hfuel; lia|].
    cbn [app] in Hnd. apply NoDup_cons in Hnd as [Hx Hnd].
    assert (x ≠ JSONResponse ∧ x ≠ object_id) as [HxJ Hx0] by set_solver.
    assert (in_some_tail x
              [x :: L1 ++ JSONResponse :: L2 ++ [object_id];
               [JSONResponse; object_id]; [JSONResponse]] = false) as Hpick.
    { apply in_some_tail_false. repeat constructor; cbn [tail]; set_solver. }
    cbn [c3_merge List.filter nonempty app pick_candidate].
    rewrite Hpick. cbn [fmap list_fmap drop_head].
    rewrite decide_True by done. rewrite !decide_False by done.
    rewrite IH by (done || simpl in Hfuel; lia). done.
Qed.

End Merge.

Section Augment.

Lemma new_style_inv h c :
  new_style h c = true →
  ∃ k L, h !! c = Some k ∧ cls_mro k = c :: L ++ [object_id] ∧
         c ≠ object_id ∧ NoDup (c :: L ++ [object_id]) ∧
         Forall (λ x, x < length h) (c :: L ++ [object_id]).
Proof.
  unfold new_style. destruct (h !! c) as [k|] eqn:Hk; [|done].
  rewrite !andb_true_iff, !bool_decide_eq_true.
  intros [[[[Hhd Hlast] Hc] Hnd] Hlt].
  apply last_Some in Hlast as [l' Hl'].
  destruct l' as [|c' L]; rewrite Hl' in Hhd; simplify_eq/=.
  exists k, L. by rewrite <-Hl'.
Qed.

Lemma store_ok_inv h :
  store_ok h = true →
  h !! object_id = Some object_class ∧ h !! JSONResponse = Some JSONResponse_class.
Proof.
  unfold store_ok. by rewrite andb_true_iff, !bool_decide_eq_true.
Qed.

Lemma augment_synthesises h rc :
  store_ok h = true → new_style h rc = true → own_member h rc "json" = None →
  ∃ k L, h !! rc = Some k ∧ cls_mro k = rc :: L ++ [object_id] ∧
         NoDup (rc :: L ++ [object_id]) ∧
         Forall (λ x, x < length h) (rc :: L ++ [object_id]) ∧
         _make_test_response_class rc h = (inl (length h), h ++ [wrapper h rc L]).
Proof.
  intros [H0 HJ]%store_ok_inv (k & L & Hk & Hmro & Hrc0 & Hnd & Hlt)%new_style_inv Hown.
  exists k, L. do 4 (split; [done|]).
  unfold own_member in Hown. rewrite Hk in Hown. cbn in Hown.
  assert (rc ≠ JSONResponse) as HrcJ.
  { intros ->. rewrite HJ in Hk. by simplify_eq. }
  unfold _make_test_response_class, type_new. rewrite Hk, Hown.
  cbn [mapM mbind option_bind mret option_ret fmap option_fmap option_map].
  rewrite Hk, HJ. cbn -[c3_merge merge_fuel].
  rewrite Hmro.
  apply NoDup_cons in Hnd as [Hrc Hnd].
  assert (in_some_tail rc [rc :: L ++ [object_id]; [JSONResponse; object_id];
                           [rc; JSONResponse]] = false) as Hpick.
  { apply in_some_tail_false. repeat constructor; cbn [tail]; set_solver. }
  unfold merge_fuel.
  cbn [foldr c3_merge List.filter nonempty app pick_candidate].
  rewrite Hpick. cbn [fmap list_fmap drop_head].
  rewrite !(decide_True (P := rc = rc)) by done.
  rewrite (decide_False (P := JSONResponse = rc)) by done.
  unfold wrapper, wrapper_mro. case_bool_decide as HJL.
  - apply list_elem_of_split in HJL as (L1 & L2 & ->).
    rewrite <-!app_assoc in *. cbn [app] in *.
    rewrite merge_present; [done..|].
    simpl; rewrite ?length_app; simpl; rewrite ?length_app; simpl; lia.
  - rewrite merge_absent; [done..|].
    simpl; rewrite ?length_app; simpl; rewrite ?length_app; simpl; lia.
Qed.

Lemma own_member_old h h' c n :
  c < length h → own_member (h ++ h') c n = own_member h c n.
Proof. intros Hc. unfold own_member. by rewrite lookup_app_l. Qed.

Lemma find_member_old h h' n l :
  Forall (λ x, x < length h) l → find_member (h ++ h') n l = find_member h n l.
Proof.
  induction 1 as [|c l Hc _ IH]; [done|].
  cbn [find_member]. by rewrite own_member_old, IH.
Qed.

Lemma find_member_app h n l1 l2 :
  find_member h n (l1 ++ l2) =
  match find_member h n l1 with
  | Some m => Some m
  | None => find_member h n l2
  end.
Proof.
  induction l1 as [|c l1 IH]; [done|].
  cbn [app find_member]. by destruct (own_member h c n).
Qed.

Lemma find_member_None h n l c :
  find_member h n l = None → c ∈ l → own_member h c n = None.
Proof.
  induction l as [|x l IH]; [by intros _ ?%elem_of_nil|].
  cbn [find_member]. destruct (own_member h x n) eqn:Hx; [done|].
  intros Hl [->|Hc]%elem_of_cons; auto.
Qed.

(** Resolution on the synthesised class: what the original class resolves
    comes first, the mixin's own members after. *)
Lemma lookup_wrapper h rc k L n :
  store_ok h = true → h !! rc = Some k →
  cls_mro k = rc :: L ++ [object_id] →
  Forall (λ x, x < length h) (rc :: L ++ [object_id]) →
  lookup_attr (h ++ [wrapper h rc L]) (length h) n =
  match lookup_attr h rc n with
  | Some m => Some m
  | None => own_member h JSONResponse n
  end.
Proof.
  intros [H0 HJ]%store_ok_inv Hk Hmro Hlt.
  assert (own_member h object_id n = None) as Hobj.
  { unfold own_member. by rewrite H0. }
  assert (JSONResponse < length h) as HJlt by (by eapply lookup_lt_Some).
  assert (object_id < length h) as H0lt by (by eapply lookup_lt_Some).
  unfold lookup_attr at 1.
  rewrite lookup_app_r, Nat.sub_diag by done.
  cbn [lookup list_lookup mbind option_bind wrapper cls_mro find_member].
  unfold own_member at 1. rewrite lookup_app_r, Nat.sub_diag by done.
  cbn [lookup list_lookup mbind option_bind].
  change (cls_dict (wrapper h rc L)) with (∅ : gmap string member).
  rewrite lookup_empty.
  unfold lookup_attr. rewrite Hk. cbn [mbind option_bind]. rewrite Hmro.
  unfold wrapper_mro. case_bool_decide as HJL.
  - rewrite find_member_old by done.
    destruct (find_member h n (rc :: L ++ [object_id])) eqn:Hf; [done|].
    symmetry. eapply find_member_None; [done|set_solver].
  - apply Forall_cons in Hlt as [Hrc Hlt]. apply Forall_app in Hlt as [HL _].
    rewrite find_member_old by (repeat (constructor || apply Forall_app); done).
    cbn [find_member]. destruct (own_member h rc n); [done|].
    rewrite !find_member_app.
    destruct (find_member h n L); [done|].
    cbn [find_member]. rewrite Hobj. by destruct (own_member h JSONResponse n).
Qed.

(** The synthesised class is a new-style class of the extended store. *)
Lemma wrapper_new_style h rc k L :
  store_ok h = true → h !! rc = Some k →
  rc ≠ JSONResponse →
  cls_mro k = rc :: L ++ [object_id] →
  NoDup (rc :: L ++ [object_id]) →
  Forall (λ x, x < length h) (rc :: L ++ [object_id]) →
  store_ok (h ++ [wrapper h rc L]) = true ∧
  new_style (h ++ [wrapper h rc L]) (length h) = true.
Proof.
  intros Hok Hk HrcJ Hmro Hnd Hlt.
  pose proof Hok as [H0 HJ]%store_ok_inv.
  assert (JSONResponse < length h) as HJlt by (by eapply lookup_lt_Some).
  assert (object_id < length h) as H0lt by (by eapply lookup_lt_Some).
  split.
  - unfold store_ok. rewrite !lookup_app_l by done.
    exact Hok.
  - unfold new_style. rewrite lookup_app_r, Nat.sub_diag by done.
    cbn [lookup list_lookup wrapper cls_mro].
    assert (Forall (λ x, x < length h) (wrapper_mro rc L)) as Hlt'.
    { unfold wrapper_mro. case_bool_decide; [done|].
      apply Forall_cons in Hlt as [Hrc Hlt]. apply Forall_app in Hlt as [HL _].
      repeat (constructor || apply Forall_app); done. }
    rewrite !andb_true_iff, !bool_decide_eq_true. repeat split.
    + unfold wrapper_mro. case_bool_decide.
      * by rewrite !app_comm_cons, last_snoc.
      * replace (length h :: rc :: L ++ [JSONResponse; object_id])
          with ((length h :: rc :: L ++ [JSONResponse]) ++ [object_id])
          by (cbn; by rewrite <-app_assoc).
        by rewrite last_snoc.
    + unfold object_id in *. lia.
    + apply NoDup_cons. split.
      * intros Hin. eapply Forall_forall in Hlt'; [|done]. lia.
      * unfold wrapper_mro. case_bool_decide as HJL; [done|].
        apply NoDup_cons in Hnd as [Hrc Hnd].
        apply NoDup_app in Hnd as (HL & HL0 & _).
        apply NoDup_cons. split; [set_solver|].
        apply NoDup_app. repeat split; [done| |].
        -- intros x Hx. specialize (HL0 x Hx). set_solver.
        -- apply NoDup_cons. split; [set_solver|]. apply NoDup_singleton.
    + constructor; [|eapply Forall_impl; [done|]];
        rewrite length_app; cbn; lia.
Qed.

(** C4. A response class whose own dictionary binds [json] is returned as
    it is: the result is the very class that was passed, and no class is
    created. *)
Theorem augment_keeps_own_json h rc m :
  own_member h rc "json" = Some m →
  _make_test_response_class rc h = (inl rc, h).
Proof.
  unfold own_member, _make_test_response_class.
  destruct (h !! rc) as [k|]; [|done]. cbn [mbind option_bind].
  by intros ->.
Qed.

Lemma augment_keeps_own_json_sample :
  own_member sample_store UserJson "json" = Some (MUser 7) ∧
  _make_test_response_class UserJson sample_store = (inl UserJson, sample_store).
Proof.
  split; [reflexivity|].
  apply (augment_keeps_own_json sample_store UserJson (MUser 7)). reflexivity.
Defined.

(** C10. The guard looks at the class's own dictionary only.  A class that
    gets [json] from a base alone is still wrapped: a new class is created,
    with the original class first among its bases and nothing in its own
    dictionary, and whatever member of a class body the original class
    resolves ([json] included) the new class resolves to the same member,
    ahead of the mixin's accessor. *)
Theorem augment_inherited_json h rc m :
  store_ok h = true → new_style h rc = true →
  own_member h rc "json" = None →
  lookup_attr h rc "json" = Some m →
  ∃ cls,
    _make_test_response_class rc h = (inl (length h), h ++ [cls]) ∧
    h !! length h = None ∧
    cls_bases cls = [rc; JSONResponse] ∧
    cls_dict cls = ∅ ∧
    lookup_attr (h ++ [cls]) (length h) "json" = Some m ∧
    ∀ n m', lookup_attr h rc n = Some m' →
            lookup_attr (h ++ [cls]) (length h) n = Some m'.
Proof.
  intros Hok Hns Hown Hm.
  destruct (augment_synthesises h rc Hok Hns Hown)
    as (k & L & Hk & Hmro & Hnd & Hlt & Hmk).
  exists (wrapper h rc L). split; [done|].
  split; [by apply lookup_ge_None_2|].
  do 2 (split; [done|]).
  split; [|intros n m' Hn];
    rewrite (lookup_wrapper h rc k L) by done.
  - by rewrite Hm.
  - by rewrite Hn.
Qed.

Lemma augment_inherited_json_sample :
  store_ok sample_store = true ∧ new_style sample_store InheritsJson = true ∧
  own_member sample_store InheritsJson "json" = None ∧
  ∃ cls,
    _make_test_response_class InheritsJson sample_store
    = (inl (length sample_store), sample_store ++ [cls]) ∧
    sample_store !! length sample_store = None ∧
    cls_bases cls = [InheritsJson; JSONResponse] ∧
    cls_dict cls = ∅ ∧
    lookup_attr (sample_store ++ [cls]) (length sample_store) "json" = Some (MUser 7) ∧
    ∀ n m', lookup_attr sample_store InheritsJson n = Some m' →
            lookup_attr (sample_store ++ [cls]) (length sample_store) n = Some m'.
Proof.
  do 3 (split; [reflexivity|]).
  apply (augment_inherited_json sample_store InheritsJson (MUser 7)); reflexivity.
Defined.

(** C3, as the specification has it, fails: Flask's [Response] is wrapped
    into class 5, whose own dictionary is empty, so that augmenting class 5
    creates class 6 on top of it. *)
Lemma reaugment_sample_not_noop :
  ∃ h1,
    _make_test_response_class FlaskResponse sample_store = (inl 5, h1) ∧
    own_member h1 5 "json" = None ∧
    _make_test_response_class 5 h1 ≠ (inl 5, h1) ∧
    (_make_test_response_class 5 h1).1 = inl 6 ∧
    cls_bases <$> (_make_test_response_class 5 h1).2 !! 6 = Some [5; JSONResponse].
Proof.
  eexists. split; [vm_compute; reflexivity|].
  split; [reflexivity|]. split; [|split; reflexivity].
  vm_compute. discriminate.
Qed.

(** C3, amended.  The class that the augmentation synthesises binds
    nothing itself, so the guard does not recognise it: augmenting it again
    creates one more class, with the first wrapper and the mixin as bases.
    The second layer changes no resolution: every name, [json] included,
    resolves on it as on the first wrapper. *)
Theorem reaugment_wraps_again h rc :
  store_ok h = true → new_style h rc = true →
  own_member h rc "json" = None →
  ∃ cls1 cls2,
    _make_test_response_class rc h = (inl (length h), h ++ [cls1]) ∧
    own_member (h ++ [cls1]) (length h) "json" = None ∧
    _make_test_response_class (length h) (h ++ [cls1])
    = (inl (S (length h)), (h ++ [cls1]) ++ [cls2]) ∧
    cls_bases cls2 = [length h; JSONResponse] ∧
    ∀ n, lookup_attr ((h ++ [cls1]) ++ [cls2]) (S (length h)) n
         = lookup_attr (h ++ [cls1]) (length h) n.
Proof.
  intros Hok Hns Hown.
  destruct (augment_synthesises h rc Hok Hns Hown)
    as (k & L & Hk & Hmro & Hnd & Hlt & Hmk).
  pose proof Hok as [H0 HJ]%store_ok_inv.
  assert (rc ≠ JSONResponse) as HrcJ.
  { intros ->. unfold own_member in Hown. by rewrite HJ in Hown. }
  destruct (wrapper_new_style h rc k L Hok Hk HrcJ Hmro Hnd Hlt) as [Hok1 Hns1].
  set (h1 := h ++ [wrapper h rc L]) in *.
  assert (length h1 = S (length h)) as Hlen.
  { unfold h1. rewrite length_app. cbn. lia. }
  assert (own_member h1 (length h) "json" = None) as Hown1.
  { unfold own_member, h1. by rewrite lookup_app_r, Nat.sub_diag. }
  destruct (augment_synthesises h1 (length h) Hok1 Hns1 Hown1)
    as (k1 & L1 & Hk1 & Hmro1 & Hnd1 & Hlt1 & Hmk1).
  exists (wrapper h rc L), (wrapper h1 (length h) L1).
  fold h1. rewrite <-Hlen. do 4 (split; [done|]).
  intros n. rewrite (lookup_wrapper h1 (length h) k1 L1) by done.
  destruct (lookup_attr h1 (length h) n) eqn:Hn; [done|].
  unfold h1 in Hn |- *.
  rewrite (lookup_wrapper h rc k L) in Hn by done.
  rewrite own_member_old by (by eapply lookup_lt_Some).
  by destruct (lookup_attr h rc n).
Qed.

Lemma reaugment_wraps_again_sample :
  store_ok sample_store = true ∧ new_style sample_store FlaskResponse = true ∧
  own_member sample_store FlaskResponse "json" = None ∧
  ∃ cls1 cls2,
    _make_test_response_class FlaskResponse sample_store
    = (inl (length sample_store), sample_store ++ [cls1]) ∧
    own_member (sample_store ++ [cls1]) (length sample_store) "json" = None ∧
    _make_test_response_class (length sample_store) (sample_store ++ [cls1])
    = (inl (S (length sample_store)), (sample_store ++ [cls1]) ++ [cls2]) ∧
    cls_bases cls2 = [length sample_store; JSONResponse] ∧
    ∀ n, lookup_attr ((sample_store ++ [cls1]) ++ [cls2]) (S (length sample_store)) n
         = lookup_attr (sample_store ++ [cls1]) (length sample_store) n.
Proof.
  do 3 (split; [reflexivity|]).
  apply (reaugment_wraps_again sample_store FlaskResponse); reflexivity.
Defined.

End Augment.

End AugmentFacts.

(** ** Facts about the JSON accessor *)

Module JsonFacts.
Import Py Json AugmentFacts.

Section Lazy.

Variable loads : string → value + string.
Variable user_getter : nat → jstate → (attr + exn) * jstate.

Lemma lookup_attr_None_own h c n :
  new_style h c = true → lookup_attr h c n = None → own_member h c n = None.
Proof.
  intros (k & L & Hk & Hmro & _)%new_style_inv. unfold lookup_attr.
  rewrite Hk. cbn [mbind option_bind]. rewrite Hmro.
  intros Hf. eapply find_member_None; [done|]. by left.
Qed.

(** What a read of [json] does on an instance of a class that resolves
    [json] to the mixin's property, by the codec's answer for the body. *)
Lemma first_read_decodes h st v :
  lookup_attr h (resp_class (obj st)) "json" = Some MJsonProperty →
  inst_dict (obj st) !! "json" = None →
  loads (data (obj st)) = inl v →
  ∃ st1, get_json loads user_getter h st = (inl (Decoded v), st1) ∧
         loads_calls st1 = loads_calls st ++ [data (obj st)] ∧
         inst_dict (obj st1) !! "json" = Some v ∧
         get_json loads user_getter h st1 = (inl (Decoded v), st1).
Proof.
  intros Hres Hnew Hv. eexists.
  unfold get_json, cached_property_get, JSONResponse_json.
  rewrite Hres, Hnew, Hv. split; [reflexivity|].
  cbn [obj resp_class inst_dict data loads_calls].
  rewrite Hres, !lookup_insert_eq. done.
Qed.

Lemma first_read_raises h st reason :
  lookup_attr h (resp_class (obj st)) "json" = Some MJsonProperty →
  inst_dict (obj st) !! "json" = None →
  loads (data (obj st)) = inr reason →
  ∃ st1, get_json loads user_getter h st = (inr (DecodeError reason), st1) ∧
         loads_calls st1 = loads_calls st ++ [data (obj st)] ∧
         inst_dict (obj st1) !! "json" = None.
Proof.
  intros Hres Hnew Hr. eexists.
  unfold get_json, cached_property_get, JSONResponse_json.
  rewrite Hres, Hnew, Hr. done.
Qed.

(** C7. On the class synthesised for a response class that has no [json]
    of its own or inherited, with a codec that decodes the body
    [{"ping": "pong"}] to the mapping and raises on the body [bad]:
    a response is built with nothing decoded; the first read of [json] on
    the ping response hands the body to the codec, once, returns the
    mapping and keeps it in the instance, and the next read returns it
    without another call of the codec; the read on the response with
    [bad] raises the codec's decode error, returns no object and keeps
    nothing.  The same holds for every body the codec decodes and every
    body it raises on. *)
Theorem json_accessor_lazy h rc bad reason calls :
  store_ok h = true → new_style h rc = true →
  lookup_attr h rc "json" = None →
  loads ping_body = inl ping_mapping →
  loads bad = inr reason →
  ∃ a h',
    _make_test_response_class rc h = (inl a, h') ∧ a ≠ rc ∧
    (∀ body, inst_dict (new_response a body) !! "json" = None) ∧
    (∃ st1,
       get_json loads user_getter h' (JState (new_response a ping_body) calls)
       = (inl (Decoded ping_mapping), st1) ∧
       loads_calls st1 = calls ++ [ping_body] ∧
       inst_dict (obj st1) !! "json" = Some ping_mapping ∧
       get_json loads user_getter h' st1 = (inl (Decoded ping_mapping), st1)) ∧
    (∃ st1,
       get_json loads user_getter h' (JState (new_response a bad) calls)
       = (inr (DecodeError reason), st1) ∧
       loads_calls st1 = calls ++ [bad] ∧
       inst_dict (obj st1) !! "json" = None) ∧
    (∀ body v, loads body = inl v →
       ∃ st1,
         get_json loads user_getter h' (JState (new_response a body) calls)
         = (inl (Decoded v), st1) ∧
         loads_calls st1 = calls ++ [body] ∧
         inst_dict (obj st1) !! "json" = Some v ∧
         get_json loads user_getter h' st1 = (inl (Decoded v), st1)) ∧
    (∀ body r, loads body = inr r →
       ∃ st1,
         get_json loads user_getter h' (JState (new_response a body) calls)
         = (inr (DecodeError r), st1) ∧
         loads_calls st1 = calls ++ [body] ∧
         inst_dict (obj st1) !! "json" = None).
Proof.
  intros Hok Hns Hnone Hping Hbad.
  pose proof (lookup_attr_None_own h rc "json" Hns Hnone) as Hown.
  destruct (augment_synthesises h rc Hok Hns Hown)
    as (k & L & Hk & Hmro & Hnd & Hlt & Hmk).
  pose proof Hok as [H0 HJ]%store_ok_inv.
  exists (length h), (h ++ [wrapper h rc L]). split; [done|].
  split; [apply lookup_lt_Some in Hk; lia|].
  assert (lookup_attr (h ++ [wrapper h rc L]) (length h) "json" = Some MJsonProperty)
    as Hres.
  { rewrite (lookup_wrapper h rc k L) by done. rewrite Hnone.
    unfold own_member. by rewrite HJ. }
  split; [done|].
  assert (∀ body v, loads body = inl v →
    ∃ st1,
      get_json loads user_getter (h ++ [wrapper h rc L])
               (JState (new_response (length h) body) calls)
      = (inl (Decoded v), st1) ∧
      loads_calls st1 = calls ++ [body] ∧
      inst_dict (obj st1) !! "json" = Some v ∧
      get_json loads user_getter (h ++ [wrapper h rc L]) st1
      = (inl (Decoded v), st1)) as Hgood.
  { intros body v Hv.
    by apply (first_read_decodes _ (JState (new_response (length h) body) calls)). }
  assert (∀ body r, loads body = inr r →
    ∃ st1,
      get_json loads user_getter (h ++ [wrapper h rc L])
               (JState (new_response (length h) body) calls)
      = (inr (DecodeError r), st1) ∧
      loads_calls st1 = calls ++ [body] ∧
      inst_dict (obj st1) !! "json" = None) as Hraise.
  { intros body r Hr.
    by apply (first_read_raises _ (JState (new_response (length h) body) calls)). }
  split; [by apply Hgood|]. split; [by apply Hraise|]. done.
Qed.

End Lazy.

Lemma json_accessor_lazy_sample :
  store_ok sample_store = true ∧ new_style sample_store FlaskResponse = true ∧
  lookup_attr sample_store FlaskResponse "json" = None ∧
  ref_loads ping_body = inl ping_mapping ∧
  ref_loads "pong" = inr "not a JSON document" ∧
  ∃ a h',
    _make_test_response_class FlaskResponse sample_store = (inl a, h') ∧
    a ≠ FlaskResponse ∧
    (∀ body, inst_dict (new_response a body) !! "json" = None) ∧
    (∃ st1,
       get_json ref_loads plain_attribute h' (JState (new_response a ping_body) [])
       = (inl (Decoded ping_mapping), st1) ∧
       loads_calls st1 = [] ++ [ping_body] ∧
       inst_dict (obj st1) !! "json" = Some ping_mapping ∧
       get_json ref_loads plain_attribute h' st1 = (inl (Decoded ping_mapping), st1)) ∧
    (∃ st1,
       get_json ref_loads plain_attribute h' (JState (new_response a "pong") [])
       = (inr (DecodeError "not a JSON document"), st1) ∧
       loads_calls st1 = [] ++ ["pong"] ∧
       inst_dict (obj st1) !! "json" = None) ∧
    (∀ body v, ref_loads body = inl v →
       ∃ st1,
         get_json ref_loads plain_attribute h' (JState (new_response a body) [])
         = (inl (Decoded v), st1) ∧
         loads_calls st1 = [] ++ [body] ∧
         inst_dict (obj st1) !! "json" = Some v ∧
         get_json ref_loads plain_attribute h' st1 = (inl (Decoded v), st1)) ∧
    (∀ body r, ref_loads body = inr r →
       ∃ st1,
         get_json ref_loads plain_attribute h' (JState (new_response a body) [])
         = (inr (DecodeError r), st1) ∧
         loads_calls st1 = [] ++ [body] ∧
         inst_dict (obj st1) !! "json" = None).
Proof.
  do 3 (split; [reflexivity|]).
  split; [vm_compute; reflexivity|]. split; [reflexivity|].
  apply (json_accessor_lazy ref_loads plain_attribute sample_store FlaskResponse
           "pong" "not a JSON document" []);
    reflexivity.
Defined.

(** The reference codec on the two bodies of the claim, and on documents
    that are cut short, carry a number with a leading zero or are followed
    by more text. *)
Example ref_loads_ping : ref_loads ping_body = inl ping_mapping.
Proof. vm_compute. reflexivity. Qed.

Example ref_loads_not_json : ref_loads "pong" = inr "not a JSON document".
Proof. reflexivity. Qed.

Example ref_loads_cut_short :
  ref_loads ("{" +:+ String dquote "ping" +:+ String dquote ": ")
  = inr "not a JSON document".
Proof. reflexivity. Qed.

Example ref_loads_leading_zero : ref_loads "[01]" = inr "not a JSON document".
Proof. reflexivity. Qed.

Example ref_loads_extra : ref_loads "0 1" = inr "extra data after the document".
Proof. reflexivity. Qed.

Example ref_loads_nested :
  ref_loads "[0, -12, true, null, [], {}]"
  = inl (JList [JNum 0; JNum (-12); JBool true; JNull; JList []; JDict ∅]).
Proof. vm_compute. reflexivity. Qed.

End JsonFacts.

(** ** Facts about the fixtures and the test run *)

Module PluginFacts.
Import Py Plugin.

(** [requests_app] is the test ['app' in request.fixturenames]. *)
Lemma requests_app_spec sc : requests_app sc = true ↔ "app" ∈ fixturenames sc.
Proof. apply bool_decide_eq_true. Qed.

Section Configure.

(** The loop leaves under a key the value of the last option whose
    upper-cased name is that key, and the old value where there is none. *)
Lemma options_written_lookup up kwargs cfg K :
  options_written up kwargs cfg !! K =
  match last (filter (λ kv, up kv.1 = K) kwargs) with
  | Some kv => Some kv.2
  | None => cfg !! K
  end.
Proof.
  unfold options_written. revert cfg.
  induction kwargs as [|[k v] kwargs IH]; intros cfg; [done|].
  cbn [foldl]. rewrite IH. cbn [fst snd].
  destruct (decide (up k = K)) as [HK|HK].
  - rewrite filter_cons_True by done.
    rewrite last_cons. destruct (last _); [done|].
    cbn [snd]. by rewrite HK, lookup_insert_eq.
  - rewrite filter_cons_False by done.
    destruct (last _); [done|]. by rewrite lookup_insert_ne.
Qed.

(** The loop touches the configuration mapping only, also when an
    assignment raises. *)
Lemma apply_options_frame sc kwargs w r w' :
  apply_options sc kwargs w = (r, w') →
  classes w' = classes w ∧ next_ctx w' = next_ctx w ∧ trace w' = trace w ∧
  setattr_log w' = setattr_log w ∧ finalizers w' = finalizers w ∧
  response_class (the_app w') = response_class (the_app w).
Proof.
  revert w. induction kwargs as [|[k v] kwargs IH]; intros w Hrun.
  - cbn in Hrun. unfold ret in Hrun. by simplify_eq.
  - cbn [apply_options] in Hrun. unfold bind, config_setitem in Hrun.
    destruct (config_ok sc (str_upper sc k) v); [|by simplify_eq].
    by apply IH in Hrun.
Qed.

Lemma configure_frame sc w r w' :
  _configure_application sc w = (r, w') →
  classes w' = classes w ∧ next_ctx w' = next_ctx w ∧ trace w' = trace w ∧
  setattr_log w' = setattr_log w ∧ finalizers w' = finalizers w ∧
  response_class (the_app w') = response_class (the_app w).
Proof.
  unfold _configure_application, bind, ret, raise, getfuncargvalue_app.
  intros Hrun. repeat case_match; simplify_eq; try done.
  by eapply apply_options_frame.
Qed.

(** When the application accepts every assignment, the loop returns and
    leaves the mapping with all options written. *)
Lemma apply_options_accepted sc kwargs w :
  (∀ k v, (k, v) ∈ kwargs → config_ok sc (str_upper sc k) v = true) →
  apply_options sc kwargs w =
  (inl (), World (classes w)
                 (App (options_written (str_upper sc) kwargs (config (the_app w)))
                      (response_class (the_app w)))
                 (next_ctx w) (trace w) (setattr_log w) (finalizers w)).
Proof.
  revert w. induction kwargs as [|[k v] kwargs IH]; intros w Hok.
  - by destruct w as [? [??] ????].
  - cbn [apply_options]. unfold bind, config_setitem.
    rewrite (Hok k v) by (by left).
    rewrite IH by (intros ???; apply Hok; by right). done.
Qed.

(** Upper-casing of ASCII text, character by character: the letters [a]
    to [z] (codes 97 to 122) go 32 codes down, the others stay. *)
Lemma upper_chars s :
  String.list_ascii_of_string (upper s) =
  (λ c, if ((97 <=? nat_of_ascii c) && (nat_of_ascii c <=? 122))%nat
        then ascii_of_nat (nat_of_ascii c - 32) else c)
  <$> String.list_ascii_of_string s.
Proof. induction s as [|c s IH]; [done|]. cbn. by rewrite IH. Qed.

(** The upper-casing of the Python 3 samples is the ASCII one on ASCII
    text. *)
Lemma upper_unicode_on_ascii s :
  ascii_only s = true → upper_unicode s = upper s.
Proof.
  induction s as [|c1 r IH]; [done|].
  cbn [ascii_only]. intros [Hc Hr]%andb_true_iff. apply Nat.ltb_lt in Hc.
  cbn [upper_unicode upper]. destruct r as [|c2 r']; [done|].
  replace (nat_of_ascii c1 =? 195) with false
    by (symmetry; apply Nat.eqb_neq; lia).
  cbn [andb]. by rewrite IH.
Qed.

(** C6. With a marker on a test that requests [app], on an interpreter
    whose [str.upper] is the usual one on ASCII text and an application
    that accepts the assignments, the fixture returns and the mapping is
    the old one with every option written under its upper-cased name
    [key.upper()]: each such key is bound afterwards; it is bound to the
    option's value, whatever it was bound to before, as long as no other
    option of the marker with the same upper-cased name carries another
    value; keys that are no option's upper-cased name keep their value;
    the response class is not touched.  The key of an option with an ASCII
    name is the name with [a]..[z] replaced by [A]..[Z].  For
    [app(debug=False)], [DEBUG] is [False] afterwards. *)
Theorem configure_writes_options sc w kwargs :
  requests_app sc = true → app_fixture_ok sc = true →
  app_keyword sc = Some (KwMarker kwargs) →
  (∀ s, ascii_only s = true → str_upper sc s = upper s) →
  (∀ k v, (k, v) ∈ kwargs → config_ok sc (str_upper sc k) v = true) →
  ∃ w', _configure_application sc w = (inl (), w') ∧
    config (the_app w') = options_written (str_upper sc) kwargs (config (the_app w)) ∧
    response_class (the_app w') = response_class (the_app w) ∧
    (∀ k v, (k, v) ∈ kwargs → is_Some (config (the_app w') !! str_upper sc k)) ∧
    (∀ k v, (k, v) ∈ kwargs →
       (∀ k' v', (k', v') ∈ kwargs → str_upper sc k' = str_upper sc k → v' = v) →
       config (the_app w') !! str_upper sc k = Some v) ∧
    (∀ K, (∀ k v, (k, v) ∈ kwargs → str_upper sc k ≠ K) →
       config (the_app w') !! K = config (the_app w) !! K) ∧
    (∀ k v, (k, v) ∈ kwargs → ascii_only k = true →
       String.list_ascii_of_string (str_upper sc k) =
       (λ c, if ((97 <=? nat_of_ascii c) && (nat_of_ascii c <=? 122))%nat
             then ascii_of_nat (nat_of_ascii c - 32) else c)
       <$> String.list_ascii_of_string k) ∧
    (kwargs = [("debug", VBool false)] →
       config (the_app w') !! "DEBUG" = Some (VBool false)).
Proof.
  intros Happ Hok Hmark Hup Hacc. eexists.
  unfold _configure_application, bind, getfuncargvalue_app.
  rewrite Happ, Hok, Hmark. cbn [negb].
  split; [by apply apply_options_accepted|]. cbn [the_app config response_class].
  do 2 (split; [done|]).
  assert (∀ k v, (k, v) ∈ kwargs →
    ∃ kv, last (filter (λ kv, str_upper sc kv.1 = str_upper sc k) kwargs) = Some kv ∧
          kv ∈ kwargs ∧ str_upper sc kv.1 = str_upper sc k) as Hlast.
  { intros k v Hin.
    destruct (last (filter (λ kv, str_upper sc kv.1 = str_upper sc k) kwargs))
      as [kv|] eqn:Hl.
    - exists kv. split; [done|]. apply last_Some in Hl as [l' Hl'].
      assert (kv ∈ filter (λ kv, str_upper sc kv.1 = str_upper sc k) kwargs) as Hkv
        by (rewrite Hl'; set_solver).
      by apply list_elem_of_filter in Hkv as [? ?].
    - apply last_None in Hl.
      assert ((k, v) ∈ filter (λ kv, str_upper sc kv.1 = str_upper sc k) kwargs)
        as Hkv by (by apply list_elem_of_filter).
      rewrite Hl in Hkv. by apply elem_of_nil in Hkv. }
  repeat split.
  - intros k v Hin. rewrite options_written_lookup.
    destruct (Hlast k v Hin) as (kv & -> & _). done.
  - intros k v Hin Hsame. rewrite options_written_lookup.
    destruct (Hlast k v Hin) as ([k' v'] & -> & Hin' & Hup').
    cbn [snd]. f_equal. by eapply Hsame.
  - intros K Hfree. rewrite options_written_lookup.
    destruct (last _) as [[k' v']|] eqn:Hl; [|done].
    apply last_Some in Hl as [l' Hl'].
    assert ((k', v') ∈ filter (λ kv, str_upper sc kv.1 = K) kwargs) as Hkv
      by (rewrite Hl'; set_solver).
    apply list_elem_of_filter in Hkv as [Hup' Hin]. by destruct (Hfree k' v' Hin).
  - intros k v _ Hascii. rewrite (Hup k Hascii). apply upper_chars.
  - intros ->. unfold options_written. cbn [foldl fst snd].
    rewrite (Hup "debug" eq_refl).
    change (upper "debug") with "DEBUG". apply lookup_insert_eq.
Qed.

Lemma configure_writes_options_sample :
  requests_app failing_test = true ∧ app_fixture_ok failing_test = true ∧
  app_keyword failing_test = Some (KwMarker [("debug", VBool false)]) ∧
  (∀ s, ascii_only s = true → str_upper failing_test s = upper s) ∧
  (∀ k v, (k, v) ∈ [("debug", VBool false)] →
          config_ok failing_test (str_upper failing_test k) v = true) ∧
  ∃ w', _configure_application failing_test (World sample_store sample_app 0 [] [] [])
        = (inl (), w') ∧
    config (the_app w')
    = options_written (str_upper failing_test) [("debug", VBool false)]
                      (config sample_app) ∧
    response_class (the_app w') = response_class sample_app ∧
    (∀ k v, (k, v) ∈ [("debug", VBool false)] →
       is_Some (config (the_app w') !! str_upper failing_test k)) ∧
    (∀ k v, (k, v) ∈ [("debug", VBool false)] →
       (∀ k' v', (k', v') ∈ [("debug", VBool false)] →
          str_upper failing_test k' = str_upper failing_test k → v' = v) →
       config (the_app w') !! str_upper failing_test k = Some v) ∧
    (∀ K, (∀ k v, (k, v) ∈ [("debug", VBool false)] →
                  str_upper failing_test k ≠ K) →
       config (the_app w') !! K = config sample_app !! K) ∧
    (∀ k v, (k, v) ∈ [("debug", VBool false)] → ascii_only k = true →
       String.list_ascii_of_string (str_upper failing_test k) =
       (λ c, if ((97 <=? nat_of_ascii c) && (nat_of_ascii c <=? 122))%nat
             then ascii_of_nat (nat_of_ascii c - 32) else c)
       <$> String.list_ascii_of_string k) ∧
    ([("debug", VBool false)] = [("debug", VBool false)] →
       config (the_app w') !! "DEBUG" = Some (VBool false)).
Proof.
  do 5 (split; [reflexivity|]).
  apply (configure_writes_options failing_test
           (World sample_store sample_app 0 [] [] []) [("debug", VBool false)]);
    reflexivity.
Defined.

(** The same marker on an application where [DEBUG] was [True], and the
    options [strasse=1] and [stra\195\159e=2] on Python 3, where both names
    are upper-cased to [STRASSE]: the later assignment stays. *)
Example debug_is_overwritten :
  config sample_app !! "DEBUG" = Some (VBool true) ∧
  config (the_app (_configure_application failing_test
                     (World sample_store sample_app 0 [] [] [])).2) !! "DEBUG"
  = Some (VBool false).
Proof. vm_compute. auto. Qed.

Example sharp_s_options :
  (_configure_application sharp_s_test (World sample_store sample_app 0 [] [] [])).1
  = inl () ∧
  config (the_app (_configure_application sharp_s_test
                     (World sample_store sample_app 0 [] [] [])).2)
  = <["STRASSE" := VInt 2]> (config sample_app).
Proof. vm_compute. auto. Qed.

(** X17. On a test that requests [app], when [request.keywords] has no
    entry [app], or a false one, the fixture returns once the [app] fixture
    has returned (and raises that fixture's exception otherwise); in both
    cases it changes nothing: the configuration mapping, the response
    class, the class store, the trace and the finalizers are as before. *)
Lemma configure_without_keyword sc w :
  requests_app sc = true →
  app_keyword sc = None ∨ app_keyword sc = Some (KwObject false) →
  _configure_application sc w
  = (if app_fixture_ok sc then inl () else inr AppFixtureError, w).
Proof.
  intros Happ Hkw. unfold _configure_application, bind, ret, getfuncargvalue_app.
  rewrite Happ. cbn [negb]. by destruct Hkw as [-> | ->], (app_fixture_ok sc).
Qed.

Lemma configure_without_keyword_sample :
  requests_app unmarked_test = true ∧
  (app_keyword unmarked_test = None ∨
   app_keyword unmarked_test = Some (KwObject false)) ∧
  _configure_application unmarked_test (World sample_store sample_app 0 [] [] [])
  = (inl (), World sample_store sample_app 0 [] [] []).
Proof.
  split; [reflexivity|]. split; [left; reflexivity|].
  apply (configure_without_keyword unmarked_test
           (World sample_store sample_app 0 [] [] [])); [reflexivity|].
  left; reflexivity.
Defined.

(** C8 does not hold of the code.  A test that requests [app], carries no
    marker and was collected under a node named [app] has
    [request.keywords.get('app')] equal to [True]: the fixture goes on to
    [options.kwargs] and raises [AttributeError], so the test is an
    error of setup; the configuration mapping is not changed. *)
Theorem configure_under_node_raises sc w :
  requests_app sc = true → app_fixture_ok sc = true →
  app_keyword sc = Some (KwObject true) →
  _configure_application sc w = (inr AttributeError, w).
Proof.
  intros Happ Hok Hkw. unfold _configure_application, bind, raise, getfuncargvalue_app.
  by rewrite Happ, Hok, Hkw.
Qed.

Lemma configure_under_node_raises_sample :
  requests_app under_node_app = true ∧ app_fixture_ok under_node_app = true ∧
  app_keyword under_node_app = Some (KwObject true) ∧
  _configure_application under_node_app (World sample_store sample_app 0 [] [] [])
  = (inr AttributeError, World sample_store sample_app 0 [] [] []).
Proof.
  do 3 (split; [reflexivity|]).
  apply (configure_under_node_raises under_node_app
           (World sample_store sample_app 0 [] [] [])); reflexivity.
Defined.

(** The run of that test: an error of setup, the test function not
    called, the context popped and the response class restored. *)
Example under_node_app_run :
  let r := runtest under_node_app spec_order sample_store sample_app in
  r.1 = Report (Some AttributeError) None [] ∧
  trace r.2 = [EvPush 0 true; EvPop 0 true] ∧
  the_app r.2 = sample_app.
Proof. vm_compute. auto. Qed.

End Configure.

Section Traces.

Lemma push_calls_app tr1 tr2 : push_calls (tr1 ++ tr2) = push_calls tr1 ++ push_calls tr2.
Proof. apply omap_app. Qed.

Lemma activated_app tr1 tr2 : activated (tr1 ++ tr2) = activated tr1 ++ activated tr2.
Proof. apply omap_app. Qed.

Lemma pop_calls_app tr1 tr2 : pop_calls (tr1 ++ tr2) = pop_calls tr1 ++ pop_calls tr2.
Proof. apply omap_app. Qed.

Lemma filter_eq_absent (l : list nat) c : c ∉ l → filter (λ x, x = c) l = [].
Proof.
  induction l as [|x l IH]; [done|]. intros Hc.
  rewrite filter_cons_False by set_solver. apply IH. set_solver.
Qed.

Lemma NoDup_count_one (l : list nat) c :
  NoDup l → c ∈ l → length (filter (λ x, x = c) l) = 1.
Proof.
  induction 1 as [|x l Hx Hnd IH]; [by intros ?%elem_of_nil|].
  intros [->|Hc]%elem_of_cons.
  - rewrite filter_cons_True by done. by rewrite filter_eq_absent.
  - rewrite filter_cons_False by (intros ->; done). auto.
Qed.

End Traces.

Section Setup.

Variable sc : scenario.

(** Every fixture keeps the invariant on contexts. *)
Lemma run_fixture_ctx_inv f w r w' :
  run_fixture sc f w = (r, w') → ctx_inv w → ctx_inv w'.
Proof.
  intros Hrun (Hpop & Hbody & Hpend & Hlt & Hnd). unfold ctx_inv.
  destruct f;
    [| |apply configure_frame in Hrun as (_ & -> & -> & _ & -> & _); done].
  all: unfold_py; repeat case_match; simplify_eq;
    cbn [trace finalizers next_ctx pending_pops omap];
    rewrite ?pop_calls_app, ?activated_app, ?Hpop, ?app_nil_r; cbn;
    rewrite ?app_nil_r, ?reverse_snoc, ?Hpend.
  all: repeat split; try done.
  all: try (intros [?|?%list_elem_of_singleton]%elem_of_app; done).
  - f_equal. apply Hpend.
  - apply Forall_app. split; [|by repeat constructor].
    eapply Forall_impl; [exact Hlt|]. cbn. intros. lia.
  - apply NoDup_app. repeat split; [done| |apply NoDup_singleton].
    intros x Hx ->%list_elem_of_singleton.
    eapply Forall_forall in Hlt; [|done]. lia.
  - eapply Forall_impl; [exact Hlt|]. cbn. intros. lia.
Qed.

Lemma setup_ctx_inv order w r w' :
  setup sc order w = (r, w') → ctx_inv w → ctx_inv w'.
Proof.
  revert w. induction order as [|f order IH]; intros w Hrun Hinv.
  - cbn [setup] in Hrun. unfold ret in Hrun. by simplify_eq.
  - cbn [setup] in Hrun. unfold bind in Hrun.
    destruct (run_fixture sc f w) as [[[]|e] w1] eqn:Hf.
    + eapply IH; [done|]. by eapply run_fixture_ctx_inv.
    + simplify_eq. by eapply run_fixture_ctx_inv.
Qed.

(** Teardown only adds calls of [pop], one for each registered closure,
    in the order of the list. *)
Lemma run_finalizers_trace fs w es w' :
  run_finalizers sc fs w = (es, w') →
  pop_calls (trace w') = pop_calls (trace w) ++ pending_pops fs ∧
  activated (trace w') = activated (trace w) ∧
  push_calls (trace w') = push_calls (trace w) ∧
  (EvBody ∈ trace w' ↔ EvBody ∈ trace w).
Proof.
  revert w es. induction fs as [|f fs IH]; intros w es Hrun.
  - cbn in Hrun. simplify_eq. by rewrite app_nil_r.
  - cbn [run_finalizers] in Hrun.
    destruct (call_finalizer sc f w) as [[[]|e] w1] eqn:Hf;
      [|destruct (run_finalizers sc fs w1) as [es1 w2] eqn:Hrest];
      [apply IH in Hrun as (Hp & Ha & Hc & Hb)
      |simplify_eq; apply IH in Hrest as (Hp & Ha & Hc & Hb)].
    all: rewrite Hp, Ha, Hc, Hb; clear Hp Ha Hc Hb.
    all: destruct f; unfold_py; repeat case_match; simplify_eq;
      cbn [trace pending_pops omap];
      rewrite ?pop_calls_app, ?activated_app, ?push_calls_app, ?elem_of_app,
        ?list_elem_of_singleton; cbn;
      rewrite ?app_nil_r, <-?app_assoc; repeat split; try done; naive_solver.
Qed.

(** The contexts of a whole run: the calls of [pop] are the activated
    contexts in reverse order of activation, and no context is activated
    twice. *)
Lemma runtest_contexts order h a :
  let tr := trace (runtest sc order h a).2 in
  pop_calls tr = reverse (activated tr) ∧ NoDup (activated tr).
Proof.
  unfold runtest.
  assert (ctx_inv (World h a 0 [] [] [])) as Hinv0.
  { repeat split; cbn; try done; [by intros ?%elem_of_nil|apply NoDup_nil_2]. }
  destruct (setup sc order (World h a 0 [] [] [])) as [[[]|e] w1] eqn:Hsetup;
    apply setup_ctx_inv in Hsetup as (Hpop & Hbody & Hpend & Hlt & Hnd); try done.
  - unfold call_body, teardown. destruct (test_body sc (the_app w1)) as [a' passed].
    cbn [finalizers classes the_app next_ctx trace setattr_log].
    destruct (run_finalizers sc _ _) as [es w3] eqn:Htear.
    apply run_finalizers_trace in Htear as (Hp & Ha & _). cbn [snd trace] in *.
    rewrite Hp, Ha, pop_calls_app, activated_app, Hpop, Hpend. cbn.
    by rewrite !app_nil_r.
  - unfold teardown. destruct (run_finalizers sc _ _) as [es w3] eqn:Htear.
    apply run_finalizers_trace in Htear as (Hp & Ha & _). cbn [snd trace] in *.
    by rewrite Hp, Ha, Hpop, Hpend.
Qed.

End Setup.

Section Contexts.

(** C1, as the specification has it, fails: when [ctx.push()] raises, the
    call was made and no [pop] follows it. *)
Lemma push_raises_unbalanced :
  requests_app push_raises = true ∧
  let tr := trace (runtest push_raises spec_order sample_store sample_app).2 in
  length (push_calls tr) = 1 ∧ length (pop_calls tr) = 0.
Proof. vm_compute. auto. Qed.

(** C1, amended.  In every run of a test that requests [app], whatever the
    test function does and whether it passes or fails, the calls of [pop]
    are as many as the calls of [push] that returned: each context whose
    [push] returned is popped exactly once (in reverse order of
    activation), and nothing else is popped, so that a context whose [push]
    raised is not popped. *)
Theorem contexts_popped_once sc order h a :
  requests_app sc = true →
  let tr := trace (runtest sc order h a).2 in
  length (activated tr) = length (pop_calls tr) ∧
  pop_calls tr = reverse (activated tr) ∧
  (∀ c, c ∈ activated tr → length (filter (λ x, x = c) (pop_calls tr)) = 1) ∧
  (∀ c, c ∈ pop_calls tr → c ∈ activated tr).
Proof.
  intros _ tr. destruct (runtest_contexts sc order h a) as [Hpop Hnd].
  fold tr in Hpop, Hnd. rewrite Hpop. repeat split.
  - by rewrite length_reverse.
  - intros c Hc. apply NoDup_count_one.
    + by rewrite reverse_Permutation.
    + by apply elem_of_reverse.
  - intros c Hc. by apply (proj1 (elem_of_reverse c _)).
Qed.

Lemma contexts_popped_once_sample :
  requests_app failing_test = true ∧
  let tr := trace (runtest failing_test spec_order sample_store sample_app).2 in
  length (activated tr) = length (pop_calls tr) ∧
  pop_calls tr = reverse (activated tr) ∧
  (∀ c, c ∈ activated tr → length (filter (λ x, x = c) (pop_calls tr)) = 1) ∧
  (∀ c, c ∈ pop_calls tr → c ∈ activated tr).
Proof.
  split; [reflexivity|].
  apply (contexts_popped_once failing_test spec_order sample_store sample_app).
  reflexivity.
Defined.

End Contexts.

Section FailedActivation.

Variable sc : scenario.
Hypothesis Happ : requests_app sc = true.
Hypothesis Hfail : context_ok sc = false ∨ push_ok sc = false.

Lemma push_fixture_fails w :
  ∃ e w', _push_application_context sc w = (inr e, w') ∧
          finalizers w' = finalizers w ∧
          (app_fixture_ok sc = true → e = ContextError ∨ e = PushError).
Proof.
  unfold_py. rewrite Happ. cbn [negb].
  destruct (app_fixture_ok sc), (context_ok sc) eqn:Hc, (push_ok sc) eqn:Hp;
    try (by destruct Hfail); eexists _, _; (split; [reflexivity|]);
    (split; [reflexivity|]); intros; (done || auto).
Qed.

Lemma run_fixture_no_activation f w r w' :
  run_fixture sc f w = (r, w') →
  activated (trace w) = [] → activated (trace w') = [].
Proof.
  intros Hrun Hact.
  destruct f;
    [| |apply configure_frame in Hrun as (_ & _ & -> & _); done].
  all: unfold_py; repeat case_match; simplify_eq;
    cbn [trace]; rewrite ?activated_app, ?Hact; try done.
  by destruct Hfail.
Qed.

Lemma setup_no_activation order w r w' :
  setup sc order w = (r, w') →
  activated (trace w) = [] → activated (trace w') = [].
Proof.
  revert w. induction order as [|f order IH]; intros w Hrun Hact.
  - cbn [setup] in Hrun. unfold ret in Hrun. by simplify_eq.
  - cbn [setup] in Hrun. unfold bind in Hrun.
    destruct (run_fixture sc f w) as [[[]|e] w1] eqn:Hf.
    + eapply IH; [done|]. by eapply run_fixture_no_activation.
    + simplify_eq. by eapply run_fixture_no_activation.
Qed.

Lemma setup_fails order w :
  push_application_context ∈ order →
  ∃ e w', setup sc order w = (inr e, w').
Proof.
  revert w. induction order as [|f order IH]; intros w Hin.
  - by apply elem_of_nil in Hin.
  - cbn [setup]. unfold bind.
    destruct (run_fixture sc f w) as [[[]|e] w1] eqn:Hf; [|by eauto].
    apply elem_of_cons in Hin as [<-|Hin]; [|by apply IH].
    cbn [run_fixture] in Hf.
    destruct (push_fixture_fails w) as (e & w' & Hpf & _). congruence.
Qed.

End FailedActivation.

(** C9. On a test that requests [app], when [app.test_request_context()]
    or [ctx.push()] raises: the fixture raises without registering a
    finalizer (the exception is that of the failed call, when the [app]
    fixture itself resolves); the run reports an error of setup, the test
    function is not called, and no [pop] is called in teardown. *)
Theorem failed_activation_is_setup_error sc order h a :
  requests_app sc = true →
  push_application_context ∈ order →
  context_ok sc = false ∨ push_ok sc = false →
  (∀ w, ∃ e w', _push_application_context sc w = (inr e, w') ∧
                finalizers w' = finalizers w ∧
                (app_fixture_ok sc = true → e = ContextError ∨ e = PushError)) ∧
  let r := runtest sc order h a in
  is_Some (setup_error r.1) ∧ call_passed r.1 = None ∧
  body_ran (trace r.2) = false ∧ pop_calls (trace r.2) = [].
Proof.
  intros Happ Hin Hfail. split; [intros w; by apply push_fixture_fails|].
  unfold runtest.
  assert (ctx_inv (World h a 0 [] [] [])) as Hinv0.
  { repeat split; cbn; try done; [by intros ?%elem_of_nil|apply NoDup_nil_2]. }
  destruct (setup_fails sc Happ Hfail order (World h a 0 [] [] []) Hin)
    as (e & w1 & Hsetup).
  rewrite Hsetup.
  pose proof (setup_no_activation sc Hfail order _ _ _ Hsetup eq_refl) as Hact.
  apply setup_ctx_inv in Hsetup as (Hpop & Hbody & Hpend & _); [|done].
  unfold teardown. destruct (run_finalizers sc _ _) as [es w3] eqn:Htear.
  apply run_finalizers_trace in Htear as (Hp & _ & _ & Hb).
  cbn [fst snd setup_error call_passed trace] in *.
  rewrite Hp, Hpop, Hpend, Hact. repeat split; [by eexists|].
  apply bool_decide_eq_false_2. by rewrite Hb.
Qed.

Lemma failed_activation_is_setup_error_sample :
  requests_app push_raises = true ∧ push_application_context ∈ spec_order ∧
  (context_ok push_raises = false ∨ push_ok push_raises = false) ∧
  (∀ w, ∃ e w', _push_application_context push_raises w = (inr e, w') ∧
                finalizers w' = finalizers w ∧
                (app_fixture_ok push_raises = true → e = ContextError ∨ e = PushError)) ∧
  let r := runtest push_raises spec_order sample_store sample_app in
  is_Some (setup_error r.1) ∧ call_passed r.1 = None ∧
  body_ran (trace r.2) = false ∧ pop_calls (trace r.2) = [].
Proof.
  split; [reflexivity|]. split; [repeat constructor|].
  split; [right; reflexivity|].
  apply (failed_activation_is_setup_error push_raises spec_order sample_store sample_app);
    [reflexivity|repeat constructor|right; reflexivity].
Defined.

Section Restore.

Variable sc : scenario.

(** What [undo] assigns: the oldest record, or the current value when
    nothing was recorded. *)
Lemma foldl_oldest (cur : classid) (l : list classid) :
  foldl (λ _ old, old) cur l = default cur (last l).
Proof.
  revert cur. induction l as [|x l IH]; intros cur; [done|].
  cbn [foldl]. rewrite IH, last_cons. by destruct (last l).
Qed.

Lemma run_fixture_slot_inv s0 f w r w' :
  run_fixture sc f w = (r, w') → slot_inv s0 w → slot_inv s0 w'.
Proof.
  intros Hrun Hinv. unfold slot_inv in *.
  destruct f;
    [| |apply configure_frame in Hrun as (_ & _ & _ & -> & -> & ->); done].
  all: destruct Hinv as [[Hlog Hslot]|[Hlast Hundo]];
    unfold_py; repeat case_match; simplify_eq;
    cbn [setattr_log the_app response_class finalizers] in *;
    rewrite ?Hlog, ?last_cons, ?Hlast; cbn;
    first [ by left | right; split; [done|set_solver] ].
Qed.

Lemma setup_slot_inv s0 order w r w' :
  setup sc order w = (r, w') → slot_inv s0 w → slot_inv s0 w'.
Proof.
  revert w. induction order as [|f order IH]; intros w Hrun Hinv.
  - cbn [setup] in Hrun. unfold ret in Hrun. by simplify_eq.
  - cbn [setup] in Hrun. unfold bind in Hrun.
    destruct (run_fixture sc f w) as [[[]|e] w1] eqn:Hf.
    + eapply IH; [done|]. by eapply run_fixture_slot_inv.
    + simplify_eq. by eapply run_fixture_slot_inv.
Qed.

(** A record of [monkeypatch] stays during setup, and one is made when
    [_monkeypatch_response_class] returns on a test that requests [app]. *)
Lemma run_fixture_log_stays f w r w' :
  run_fixture sc f w = (r, w') → setattr_log w ≠ [] → setattr_log w' ≠ [].
Proof.
  intros Hrun Hlog.
  destruct f;
    [| |apply configure_frame in Hrun as (_ & _ & _ & -> & _); done].
  all: unfold_py; repeat case_match; simplify_eq; cbn [setattr_log]; done.
Qed.

Lemma monkeypatch_fixture_records w w' :
  requests_app sc = true →
  run_fixture sc monkeypatch_response_class w = (inl (), w') →
  setattr_log w' ≠ [].
Proof.
  intros Happ Hrun. unfold_py. rewrite Happ in Hrun. cbn [negb] in Hrun.
  repeat case_match; simplify_eq; cbn [setattr_log]; done.
Qed.

Lemma setup_records order w w' :
  requests_app sc = true →
  monkeypatch_response_class ∈ order →
  setup sc order w = (inl (), w') →
  setattr_log w' ≠ [].
Proof.
  intros Happ Hin Hrun.
  assert (∀ order w w', setup sc order w = (inl (), w') →
            setattr_log w ≠ [] → setattr_log w' ≠ []) as Hstays.
  { clear. intros order. induction order as [|f order IH]; intros w w' Hrun Hlog.
    - cbn [setup] in Hrun. unfold ret in Hrun. by simplify_eq.
    - cbn [setup] in Hrun. unfold bind in Hrun.
      destruct (run_fixture sc f w) as [[[]|e] w1] eqn:Hf; [|done].
      eapply IH; [done|]. by eapply run_fixture_log_stays. }
  revert w Hrun. induction order as [|f order IH]; intros w Hrun.
  - by apply elem_of_nil in Hin.
  - cbn [setup] in Hrun. unfold bind in Hrun.
    destruct (run_fixture sc f w) as [[[]|e] w1] eqn:Hf; [|done].
    apply elem_of_cons in Hin as [<-|Hin].
    + eapply Hstays; [done|]. by eapply monkeypatch_fixture_records.
    + by eapply IH.
Qed.

(** Teardown gives the slot its first value back. *)
Lemma run_finalizers_slot s0 fs w es w' :
  run_finalizers sc fs w = (es, w') →
  (setattr_log w = [] ∧ response_class (the_app w) = s0) ∨
  (last (setattr_log w) = Some s0 ∧ FinUndo ∈ fs) →
  response_class (the_app w') = s0.
Proof.
  revert w es. induction fs as [|f fs IH]; intros w es Hrun Hinv.
  - cbn in Hrun. simplify_eq. destruct Hinv as [[_ ?]|[_ ?%elem_of_nil]]; done.
  - cbn [run_finalizers] in Hrun.
    destruct (call_finalizer sc f w) as [[[]|e] w1] eqn:Hf;
      [|destruct (run_finalizers sc fs w1) as [es1 w2] eqn:Hrest; simplify_eq];
      (eapply IH; [done|]).
    all: destruct f; unfold_py; repeat case_match; simplify_eq;
      cbn [setattr_log the_app response_class].
    all: try (destruct Hinv as [?|[? ?%elem_of_cons]]; [by left|right];
              split; [done|naive_solver]).
    all: left; split; [done|]; rewrite foldl_oldest;
      destruct Hinv as [[-> ?]|[-> _]]; done.
Qed.

End Restore.

(** C2. On a test that requests [app], with [_monkeypatch_response_class]
    among the fixtures the runner sets up, the response class of the
    application after the run is the one before it: whether setup raised
    (before or after the context was activated), whatever the test function
    did to the slot, and whether it passed or failed. *)
Theorem response_class_restored sc order h a :
  requests_app sc = true →
  monkeypatch_response_class ∈ order →
  response_class (the_app (runtest sc order h a).2) = response_class a.
Proof.
  intros Happ Hin. unfold runtest.
  assert (slot_inv (response_class a) (World h a 0 [] [] [])) as Hinv0 by (by left).
  destruct (setup sc order (World h a 0 [] [] [])) as [[[]|e] w1] eqn:Hsetup.
  - pose proof (setup_records sc order _ _ Happ Hin Hsetup) as Hlog.
    apply (setup_slot_inv sc (response_class a)) in Hsetup; [|done].
    destruct Hsetup as [[? _]|[Hlast Hundo]]; [done|].
    unfold call_body, teardown. destruct (test_body sc (the_app w1)) as [a' passed].
    cbn [finalizers classes the_app next_ctx trace setattr_log].
    destruct (run_finalizers sc _ _) as [es w3] eqn:Htear. cbn [snd].
    eapply run_finalizers_slot; [done|]. right. by cbn.
  - apply (setup_slot_inv sc (response_class a)) in Hsetup; [|done].
    unfold teardown. destruct (run_finalizers sc _ _) as [es w3] eqn:Htear.
    cbn [snd]. eapply run_finalizers_slot; [done|]. by cbn.
Qed.

Lemma response_class_restored_sample :
  requests_app failing_test = true ∧ monkeypatch_response_class ∈ spec_order ∧
  response_class (the_app (runtest failing_test spec_order sample_store sample_app).2)
  = response_class sample_app.
Proof.
  split; [reflexivity|]. split; [repeat constructor|].
  apply (response_class_restored failing_test spec_order sample_store sample_app);
    [reflexivity|repeat constructor].
Defined.

Section Gate.

Variable sc : scenario.
Hypothesis Hplain : requests_app sc = false.

Lemma setup_not_requested order w :
  ∃ fs, Forall (λ f, f = FinUndo) fs ∧
        setup sc order w =
        (inl (), World (classes w) (the_app w) (next_ctx w) (trace w)
                       (setattr_log w) (fs ++ finalizers w)).
Proof.
  revert w. induction order as [|f order IH]; intros w.
  - exists []. split; [done|]. by destruct w.
  - cbn [setup]. unfold bind.
    destruct f; unfold_py; rewrite Hplain; cbn [negb].
    + destruct (IH (World (classes w) (the_app w) (next_ctx w) (trace w)
                          (setattr_log w) (FinUndo :: finalizers w)))
        as (fs & Hfs & ->).
      exists (fs ++ [FinUndo]).
      split; [apply Forall_app; split; [done|by constructor]|].
      cbn. by rewrite <-app_assoc.
    + destruct (IH w) as (fs & Hfs & Hs). exists fs. by destruct w.
    + destruct (IH w) as (fs & Hfs & Hs). exists fs. by destruct w.
Qed.

Lemma run_finalizers_undo_only fs w :
  Forall (λ f, f = FinUndo) fs → setattr_log w = [] →
  ∃ w', run_finalizers sc fs w = ([], w') ∧ the_app w' = the_app w ∧
        trace w' = trace w ∧ classes w' = classes w.
Proof.
  intros Hfs. revert w. induction Hfs as [|f fs -> _ IH]; intros w Hlog.
  - by exists w.
  - cbn [run_finalizers]. unfold_py. rewrite Hlog. cbn [foldl].
    edestruct IH as (w' & -> & Ha & Ht & Hc); [done|].
    exists w'. cbn in *. rewrite Ha, Ht, Hc. by destruct (the_app w).
Qed.

End Gate.

(** Three runs in the order of the specification: a failing test, a
    [push] that raises, and a setup that raises after the activation. *)
Example failing_test_run :
  let r := runtest failing_test spec_order sample_store sample_app in
  r.1 = Report None (Some false) [] ∧
  trace r.2 = [EvPush 0 true; EvBody; EvPop 0 true] ∧
  response_class (the_app r.2) = FlaskResponse ∧
  config (the_app r.2) !! "DEBUG" = Some (VBool false).
Proof. vm_compute. auto. Qed.

Example push_raises_run :
  let r := runtest push_raises spec_order sample_store sample_app in
  r.1 = Report (Some PushError) None [] ∧
  trace r.2 = [EvPush 0 false] ∧
  response_class (the_app r.2) = FlaskResponse.
Proof. vm_compute. auto. Qed.

Example config_raises_run :
  let r := runtest config_raises spec_order sample_store sample_app in
  r.1 = Report (Some ConfigError) None [] ∧
  trace r.2 = [EvPush 0 true; EvPop 0 true] ∧
  response_class (the_app r.2) = FlaskResponse ∧
  config (the_app r.2) !! "DEBUG" = Some (VBool true).
Proof. vm_compute. auto. Qed.

(** C5. On a test that does not request [app], each of the three fixture
    functions returns at once and leaves the world as it is; over the
    whole run the application (mapping and slot) ends as the test function
    left it, no class is created, and no context is pushed or popped. *)
Theorem fixtures_gated sc :
  requests_app sc = false →
  (∀ w, _monkeypatch_response_class sc w = (inl (), w)) ∧
  (∀ w, _push_application_context sc w = (inl (), w)) ∧
  (∀ w, _configure_application sc w = (inl (), w)) ∧
  (∀ order h a,
     let r := runtest sc order h a in
     the_app r.2 = (test_body sc a).1 ∧ classes r.2 = h ∧ trace r.2 = [EvBody] ∧
     setup_error r.1 = None ∧ teardown_errors r.1 = []).
Proof.
  intros Hplain.
  do 3 (split; [intros w; unfold_py; by rewrite Hplain|]).
  intros order h a. unfold runtest.
  destruct (setup_not_requested sc Hplain order (World h a 0 [] [] []))
    as (fs & Hfs & ->).
  unfold call_body, teardown. cbn [the_app classes next_ctx trace setattr_log finalizers].
  destruct (test_body sc a) as [a' passed]. rewrite app_nil_r.
  edestruct (run_finalizers_undo_only sc fs) as (w' & -> & Ha & Ht & Hc); [done..|].
  by cbn in *.
Qed.

Lemma fixtures_gated_sample :
  requests_app plain_test = false ∧
  (∀ w, _monkeypatch_response_class plain_test w = (inl (), w)) ∧
  (∀ w, _push_application_context plain_test w = (inl (), w)) ∧
  (∀ w, _configure_application plain_test w = (inl (), w)) ∧
  (∀ order h a,
     let r := runtest plain_test order h a in
     the_app r.2 = (test_body plain_test a).1 ∧ classes r.2 = h ∧
     trace r.2 = [EvBody] ∧
     setup_error r.1 = None ∧ teardown_errors r.1 = []).
Proof.
  split; [reflexivity|]. apply (fixtures_gated plain_test). reflexivity.
Defined.

End PluginFacts.

(** ** More on the augmentation *)

Module AugmentMore.
Import Py AugmentFacts.

Lemma new_style_old h h' c :
  new_style h c = true → new_style (h ++ h') c = true.
Proof.
  unfold new_style. destruct (h !! c) as [k|] eqn:Hk; [|done].
  rewrite (lookup_app_l_Some _ _ _ _ Hk).
  rewrite !andb_true_iff, !bool_decide_eq_true.
  intros [[[[Hhd Hlast] Hc] Hnd] Hlt]. repeat split; try done.
  eapply Forall_impl; [done|]. cbn. intros x Hx. rewrite length_app. lia.
Qed.

Lemma lookup_attr_own h c n m :
  new_style h c = true → own_member h c n = Some m → lookup_attr h c n = Some m.
Proof.
  intros (k & L & Hk & Hmro & _)%new_style_inv Hown. unfold lookup_attr.
  rewrite Hk. cbn [mbind option_bind]. rewrite Hmro. cbn [find_member].
  by rewrite Hown.
Qed.

Lemma own_json_not_mixin h rc :
  store_ok h = true → own_member h rc "json" = None → rc ≠ JSONResponse.
Proof.
  intros [_ HJ]%store_ok_inv Hown ->. unfold own_member in Hown.
  by rewrite HJ in Hown.
Qed.

(** What the class returned by the augmentation resolves [json] to. *)
Lemma augment_result_json h rc :
  store_ok h = true → new_style h rc = true →
  ∃ a h',
    _make_test_response_class rc h = (inl a, h') ∧
    lookup_attr h' a "json" =
    match lookup_attr h rc "json" with
    | Some m => Some m
    | None => Some MJsonProperty
    end.
Proof.
  intros Hok Hns. destruct (own_member h rc "json") as [m|] eqn:Hown.
  - exists rc, h. rewrite (lookup_attr_own h rc "json" m) by done.
    split; [|done]. unfold _make_test_response_class.
    unfold own_member in Hown. destruct (h !! rc) as [k|]; [|done].
    cbn in Hown. by rewrite Hown.
  - destruct (augment_synthesises h rc Hok Hns Hown)
      as (k & L & Hk & Hmro & Hnd & Hlt & Hmk).
    exists (length h), (h ++ [wrapper h rc L]). split; [done|].
    rewrite (lookup_wrapper h rc k L) by done.
    destruct (lookup_attr h rc "json"); [done|].
    apply store_ok_inv in Hok as [_ HJ]. unfold own_member. by rewrite HJ.
Qed.

(** The two outcomes of the augmentation on a new-style class. *)
Lemma augment_shape h rc :
  store_ok h = true → new_style h rc = true →
  ∃ a new,
    _make_test_response_class rc h = (inl a, h ++ new) ∧
    ((a = rc ∧ new = [] ∧ is_Some (own_member h rc "json")) ∨
     (a = length h ∧ own_member h rc "json" = None ∧
      ∃ k L, h !! rc = Some k ∧ cls_mro k = rc :: L ++ [object_id] ∧
             new = [wrapper h rc L])) ∧
    store_ok (h ++ new) = true ∧ new_style (h ++ new) a = true.
Proof.
  intros Hok Hns. destruct (own_member h rc "json") as [m|] eqn:Hown.
  - exists rc, []. rewrite app_nil_r. split; [|by eauto 10].
    unfold _make_test_response_class.
    unfold own_member in Hown. destruct (h !! rc) as [k|]; [|done].
    cbn in Hown. by rewrite Hown.
  - destruct (augment_synthesises h rc Hok Hns Hown)
      as (k & L & Hk & Hmro & Hnd & Hlt & Hmk).
    pose proof (own_json_not_mixin h rc Hok Hown) as HrcJ.
    destruct (wrapper_new_style h rc k L Hok Hk HrcJ Hmro Hnd Hlt) as [Hok1 Hns1].
    exists (length h), [wrapper h rc L]. split; [done|].
    split; [|done]. right. eauto 10.
Qed.

(** X2. The class returned by the augmentation always resolves [json]: to
    the member the class given resolves, be it its own or inherited, and
    to the mixin's property when the class given resolves none. *)
Theorem augment_exposes_json h rc :
  store_ok h = true → new_style h rc = true →
  ∃ a h',
    _make_test_response_class rc h = (inl a, h') ∧
    is_Some (lookup_attr h' a "json") ∧
    (∀ m, lookup_attr h rc "json" = Some m → lookup_attr h' a "json" = Some m) ∧
    (lookup_attr h rc "json" = None → lookup_attr h' a "json" = Some MJsonProperty).
Proof.
  intros Hok Hns.
  destruct (augment_result_json h rc Hok Hns) as (a & h' & Hmk & Hjson).
  exists a, h'. split; [done|]. rewrite Hjson.
  destruct (lookup_attr h rc "json") as [m|]; repeat split; eauto; congruence.
Qed.

Lemma augment_exposes_json_sample :
  store_ok sample_store = true ∧ new_style sample_store InheritsJson = true ∧
  ∃ a h',
    _make_test_response_class InheritsJson sample_store = (inl a, h') ∧
    is_Some (lookup_attr h' a "json") ∧
    (∀ m, lookup_attr sample_store InheritsJson "json" = Some m →
          lookup_attr h' a "json" = Some m) ∧
    (lookup_attr sample_store InheritsJson "json" = None →
     lookup_attr h' a "json" = Some MJsonProperty).
Proof.
  do 2 (split; [reflexivity|]).
  apply (augment_exposes_json sample_store InheritsJson); reflexivity.
Defined.

(** X3. The class synthesised for a class without a [json] of its own is a
    subclass of that class and of the mixin: its MRO starts with itself and
    the class given, holds the whole MRO of the class given in the same
    order, holds [JSONResponse], ends with [object] and repeats no class. *)
Theorem wrapper_is_subclass h rc :
  store_ok h = true → new_style h rc = true →
  own_member h rc "json" = None →
  ∃ k cls,
    h !! rc = Some k ∧
    _make_test_response_class rc h = (inl (length h), h ++ [cls]) ∧
    take 2 (cls_mro cls) = [length h; rc] ∧
    cls_mro k `sublist_of` cls_mro cls ∧
    JSONResponse ∈ cls_mro cls ∧
    last (cls_mro cls) = Some object_id ∧
    NoDup (cls_mro cls).
Proof.
  intros Hok Hns Hown.
  destruct (augment_synthesises h rc Hok Hns Hown)
    as (k & L & Hk & Hmro & Hnd & Hlt & Hmk).
  pose proof (own_json_not_mixin h rc Hok Hown) as HrcJ.
  destruct (wrapper_new_style h rc k L Hok Hk HrcJ Hmro Hnd Hlt) as [_ Hns1].
  apply new_style_inv in Hns1 as (k1 & L1 & Hk1 & Hmro1 & _ & Hnd1 & _).
  rewrite lookup_app_r, Nat.sub_diag in Hk1 by done. cbn in Hk1. simplify_eq.
  exists k, (wrapper h rc L). do 2 (split; [done|]).
  split; [done|]. split; [|split; [|split]].
  - rewrite Hmro. cbn [wrapper cls_mro]. apply sublist_cons.
    unfold wrapper_mro. apply sublist_skip. case_bool_decide; [done|].
    apply sublist_app; [done|]. by apply sublist_cons.
  - cbn [wrapper cls_mro]. unfold wrapper_mro. case_bool_decide; set_solver.
  - rewrite Hmro1. by rewrite !app_comm_cons, last_snoc.
  - by rewrite Hmro1.
Qed.

Lemma wrapper_is_subclass_sample :
  store_ok sample_store = true ∧ new_style sample_store InheritsJson = true ∧
  own_member sample_store InheritsJson "json" = None ∧
  ∃ k cls,
    sample_store !! InheritsJson = Some k ∧
    _make_test_response_class InheritsJson sample_store
    = (inl (length sample_store), sample_store ++ [cls]) ∧
    take 2 (cls_mro cls) = [length sample_store; InheritsJson] ∧
    cls_mro k `sublist_of` cls_mro cls ∧
    JSONResponse ∈ cls_mro cls ∧
    last (cls_mro cls) = Some object_id ∧
    NoDup (cls_mro cls).
Proof.
  do 3 (split; [reflexivity|]).
  apply (wrapper_is_subclass sample_store InheritsJson); reflexivity.
Defined.

(** X4. The augmentation changes nothing for the classes that exist: every
    new-style class of the store resolves every name after the call as
    before it, the class given included. *)
Theorem augment_keeps_resolution h rc c n :
  store_ok h = true → new_style h rc = true → new_style h c = true →
  lookup_attr (_make_test_response_class rc h).2 c n = lookup_attr h c n.
Proof.
  intros Hok Hns Hc.
  destruct (augment_shape h rc Hok Hns) as (a & new & -> & _).
  cbn [snd].
  apply new_style_inv in Hc as (k & L & Hk & Hmro & _ & _ & Hlt).
  unfold lookup_attr. rewrite (lookup_app_l_Some _ _ _ _ Hk), Hk.
  cbn [mbind option_bind]. rewrite Hmro. by apply find_member_old.
Qed.

Lemma augment_keeps_resolution_sample :
  store_ok sample_store = true ∧ new_style sample_store FlaskResponse = true ∧
  new_style sample_store UserJson = true ∧
  lookup_attr (_make_test_response_class FlaskResponse sample_store).2 UserJson "json"
  = lookup_attr sample_store UserJson "json".
Proof.
  do 3 (split; [reflexivity|]).
  apply (augment_keeps_resolution sample_store FlaskResponse UserJson "json");
    reflexivity.
Defined.

End AugmentMore.

(** ** More on the JSON accessor *)

Module JsonMore.
Import Py Json AugmentFacts AugmentMore JsonFacts.

Section Reads.

Variable loads : string → value + string.
Variable user_getter : nat → jstate → (attr + exn) * jstate.

(** Reads on an instance of a class that resolves [json] to the mixin's
    property go through [cached_property]. *)
Lemma get_json_property h st :
  lookup_attr h (resp_class (obj st)) "json" = Some MJsonProperty →
  get_json loads user_getter h st =
  match cached_property_get loads st with
  | (inl v, st') => (inl (Decoded v), st')
  | (inr e, st') => (inr e, st')
  end.
Proof. intros Hres. unfold get_json. by rewrite Hres. Qed.

(** X5. A read of [json] that raises keeps nothing: on the class
    synthesised for a response class without [json], when the codec
    rejects the body, every read hands the body to the codec again and
    raises the decode error again. *)
Theorem failed_read_is_retried h rc body calls reason :
  store_ok h = true → new_style h rc = true →
  lookup_attr h rc "json" = None →
  loads body = inr reason →
  ∃ a h' st1 st2,
    _make_test_response_class rc h = (inl a, h') ∧
    get_json loads user_getter h' (JState (new_response a body) calls)
    = (inr (DecodeError reason), st1) ∧
    get_json loads user_getter h' st1 = (inr (DecodeError reason), st2) ∧
    loads_calls st2 = calls ++ [body; body] ∧
    inst_dict (obj st2) !! "json" = None.
Proof.
  intros Hok Hns Hnone Hbad.
  destruct (augment_result_json h rc Hok Hns) as (a & h' & Hmk & Hjson).
  rewrite Hnone in Hjson. exists a, h'. do 2 eexists. split; [done|].
  rewrite !get_json_property by done.
  unfold cached_property_get, JSONResponse_json.
  cbn [obj new_response resp_class inst_dict data loads_calls].
  rewrite lookup_empty, Hbad. split; [reflexivity|].
  rewrite get_json_property by done.
  unfold cached_property_get, JSONResponse_json.
  cbn [obj new_response resp_class inst_dict data loads_calls].
  rewrite lookup_empty, Hbad. split; [reflexivity|].
  cbn [obj loads_calls inst_dict]. by rewrite <-app_assoc.
Qed.

(** X6. What the first read decoded stays: after a read that returned,
    assigning any other body to the response changes no later read; the
    object decoded from the first body is returned and the codec is not
    called. *)
Theorem cached_json_ignores_new_body h rc body calls v body' :
  store_ok h = true → new_style h rc = true →
  lookup_attr h rc "json" = None →
  loads body = inl v →
  ∃ a h' st1,
    _make_test_response_class rc h = (inl a, h') ∧
    get_json loads user_getter h' (JState (new_response a body) calls)
    = (inl (Decoded v), st1) ∧
    data (obj (set_data body' st1)) = body' ∧
    get_json loads user_getter h' (set_data body' st1)
    = (inl (Decoded v), set_data body' st1) ∧
    loads_calls (set_data body' st1) = calls ++ [body].
Proof.
  intros Hok Hns Hnone Hgood.
  destruct (augment_result_json h rc Hok Hns) as (a & h' & Hmk & Hjson).
  rewrite Hnone in Hjson. exists a, h'. eexists. split; [done|].
  rewrite get_json_property by done.
  unfold cached_property_get, JSONResponse_json.
  cbn [obj new_response resp_class inst_dict data loads_calls].
  rewrite lookup_empty, Hgood. split; [reflexivity|].
  split; [done|]. split; [|done].
  rewrite get_json_property by done.
  unfold cached_property_get, set_data.
  cbn [obj resp_class inst_dict data loads_calls].
  by rewrite lookup_insert_eq.
Qed.

End Reads.

Lemma failed_read_is_retried_sample :
  store_ok sample_store = true ∧ new_style sample_store FlaskResponse = true ∧
  lookup_attr sample_store FlaskResponse "json" = None ∧
  ref_loads "pong" = inr "not a JSON document" ∧
  ∃ a h' st1 st2,
    _make_test_response_class FlaskResponse sample_store = (inl a, h') ∧
    get_json ref_loads plain_attribute h' (JState (new_response a "pong") [])
    = (inr (DecodeError "not a JSON document"), st1) ∧
    get_json ref_loads plain_attribute h' st1
    = (inr (DecodeError "not a JSON document"), st2) ∧
    loads_calls st2 = [] ++ ["pong"; "pong"] ∧
    inst_dict (obj st2) !! "json" = None.
Proof.
  do 4 (split; [reflexivity|]).
  apply (failed_read_is_retried ref_loads plain_attribute sample_store FlaskResponse
           "pong" []);
    reflexivity.
Defined.

Lemma cached_json_ignores_new_body_sample :
  store_ok sample_store = true ∧ new_style sample_store FlaskResponse = true ∧
  lookup_attr sample_store FlaskResponse "json" = None ∧
  ref_loads ping_body = inl ping_mapping ∧
  ∃ a h' st1,
    _make_test_response_class FlaskResponse sample_store = (inl a, h') ∧
    get_json ref_loads plain_attribute h' (JState (new_response a ping_body) [])
    = (inl (Decoded ping_mapping), st1) ∧
    data (obj (set_data "pong" st1)) = "pong" ∧
    get_json ref_loads plain_attribute h' (set_data "pong" st1)
    = (inl (Decoded ping_mapping), set_data "pong" st1) ∧
    loads_calls (set_data "pong" st1) = [] ++ [ping_body].
Proof.
  do 3 (split; [reflexivity|]). split; [vm_compute; reflexivity|].
  apply (cached_json_ignores_new_body ref_loads plain_attribute sample_store FlaskResponse
           ping_body [] ping_mapping "pong"); reflexivity.
Defined.

End JsonMore.

(** ** More on the fixtures and the test run *)

Module PluginMore.
Import Py Plugin AugmentFacts AugmentMore PluginFacts.

Section Options.

Lemma filter_none {A} (P : A → Prop) `{∀ x, Decision (P x)} (l : list A) :
  (∀ x, x ∈ l → ¬ P x) → filter P l = [].
Proof.
  induction l as [|x l IH]; [done|]. intros Hl.
  rewrite filter_cons_False by (apply Hl; by left).
  apply IH. intros y Hy. apply Hl. by right.
Qed.

(** The option that counts for a key is the last one with that upper-cased
    name. *)
Lemma options_written_last up pre k v post cfg :
  (∀ k' v', (k', v') ∈ post → up k' ≠ up k) →
  options_written up (pre ++ (k, v) :: post) cfg !! up k = Some v.
Proof.
  intros Hpost. rewrite options_written_lookup.
  rewrite filter_app, filter_cons_True by done.
  rewrite (filter_none _ post) by (intros [k' v'] Hin; by apply (Hpost k' v')).
  by rewrite last_snoc.
Qed.


(** The loop stops at the first assignment the application rejects; what
    was assigned before stays. *)
Lemma apply_options_rejected sc pre k v post w :
  (∀ k' v', (k', v') ∈ pre → config_ok sc (str_upper sc k') v' = true) →
  config_ok sc (str_upper sc k) v = false →
  apply_options sc (pre ++ (k, v) :: post) w =
  (inr ConfigError,
   World (classes w)
         (App (options_written (str_upper sc) pre (config (the_app w)))
              (response_class (the_app w)))
         (next_ctx w) (trace w) (setattr_log w) (finalizers w)).
Proof.
  revert w. induction pre as [|[k0 v0] pre IH]; intros w Hpre Hbad.
  - rewrite app_nil_l. cbn [apply_options]. unfold bind, config_setitem. rewrite Hbad.
    by destruct w as [? [??] ????].
  - rewrite <-app_comm_cons. cbn [apply_options]. unfold bind, config_setitem.
    rewrite (Hpre k0 v0) by (by left).
    rewrite IH by (done || intros ???; apply Hpre; by right). done.
Qed.

End Options.

(** X8. When two options of the marker have the same upper-cased name
    ([key.upper()], as the interpreter that runs the test computes it), the
    one that comes later in the iteration is the one the key holds
    afterwards: on an application that accepts the assignments, an option
    that no later option collides with is what its key is bound to,
    whatever earlier options wrote there. *)
Theorem later_option_wins sc w pre k v post :
  requests_app sc = true → app_fixture_ok sc = true →
  app_keyword sc = Some (KwMarker (pre ++ (k, v) :: post)) →
  (∀ k' v', (k', v') ∈ pre ++ (k, v) :: post →
            config_ok sc (str_upper sc k') v' = true) →
  (∀ k' v', (k', v') ∈ post → str_upper sc k' ≠ str_upper sc k) →
  ∃ w', _configure_application sc w = (inl (), w') ∧
        config (the_app w') !! str_upper sc k = Some v.
Proof.
  intros Happ Hok Hmark Hacc Hpost. eexists.
  unfold _configure_application, bind, getfuncargvalue_app.
  rewrite Happ, Hok, Hmark. cbn [negb].
  split; [by apply apply_options_accepted|]. cbn [the_app config].
  by apply options_written_last.
Qed.

Lemma later_option_wins_sample :
  requests_app sharp_s_test = true ∧ app_fixture_ok sharp_s_test = true ∧
  app_keyword sharp_s_test
  = Some (KwMarker ([("strasse", VInt 1)]
                    ++ ("stra" +:+ eszett +:+ "e", VInt 2) :: [])) ∧
  str_upper sharp_s_test "strasse" = "STRASSE" ∧
  str_upper sharp_s_test ("stra" +:+ eszett +:+ "e") = "STRASSE" ∧
  ∃ w', _configure_application sharp_s_test (World sample_store sample_app 0 [] [] [])
        = (inl (), w') ∧
        config (the_app w') !! str_upper sharp_s_test ("stra" +:+ eszett +:+ "e")
        = Some (VInt 2).
Proof.
  do 5 (split; [reflexivity|]).
  apply (later_option_wins sharp_s_test (World sample_store sample_app 0 [] [] [])
           [("strasse", VInt 1)] ("stra" +:+ eszett +:+ "e") (VInt 2) []);
    try reflexivity.
  intros k' v' Hin. by apply elem_of_nil in Hin.
Defined.

(** The options [debug=True] and [DEBUG=False], in that order. *)
Example debug_then_DEBUG :
  config (the_app (_configure_application colliding_test
                     (World sample_store sample_app 0 [] [] [])).2) !! "DEBUG"
  = Some (VBool false).
Proof. vm_compute. reflexivity. Qed.

(** X9. When the application rejects an assignment, the fixture raises at
    that option and does not take back what it has written: the options
    before it are in the mapping, the rejected option and those after it
    are not written, and nothing but the mapping has changed. *)
Theorem rejected_option_stops_loop sc w pre k v post :
  requests_app sc = true → app_fixture_ok sc = true →
  app_keyword sc = Some (KwMarker (pre ++ (k, v) :: post)) →
  (∀ k' v', (k', v') ∈ pre → config_ok sc (str_upper sc k') v' = true) →
  config_ok sc (str_upper sc k) v = false →
  ∃ w', _configure_application sc w = (inr ConfigError, w') ∧
        config (the_app w') = options_written (str_upper sc) pre (config (the_app w)) ∧
        response_class (the_app w') = response_class (the_app w) ∧
        classes w' = classes w ∧ trace w' = trace w ∧
        finalizers w' = finalizers w.
Proof.
  intros Happ Hok Hmark Hpre Hbad. eexists.
  unfold _configure_application, bind, getfuncargvalue_app.
  rewrite Happ, Hok, Hmark. cbn [negb].
  split; [by apply apply_options_rejected|]. done.
Qed.

Lemma rejected_option_stops_loop_sample :
  requests_app rejecting_test = true ∧ app_fixture_ok rejecting_test = true ∧
  app_keyword rejecting_test
  = Some (KwMarker ([("debug", VBool false)]
                    ++ ("port", VInt 80) :: [("testing", VBool true)])) ∧
  config_ok rejecting_test (str_upper rejecting_test "port") (VInt 80) = false ∧
  ∃ w', _configure_application rejecting_test (World sample_store sample_app 0 [] [] [])
        = (inr ConfigError, w') ∧
        config (the_app w')
        = options_written (str_upper rejecting_test) [("debug", VBool false)]
                          (config sample_app) ∧
        response_class (the_app w') = response_class sample_app ∧
        classes w' = sample_store ∧ trace w' = [] ∧ finalizers w' = [].
Proof.
  do 4 (split; [reflexivity|]).
  apply (rejected_option_stops_loop rejecting_test
           (World sample_store sample_app 0 [] [] [])
           [("debug", VBool false)] "port" (VInt 80) [("testing", VBool true)]);
    try reflexivity.
  intros k' v' Hin%list_elem_of_singleton. by simplify_eq.
Defined.

Section RunConfig.

Variable sc : scenario.




(** Teardown leaves the mapping and the class store alone. *)
Lemma run_finalizers_config fs w es w' :
  run_finalizers sc fs w = (es, w') →
  config (the_app w') = config (the_app w) ∧ classes w' = classes w.
Proof.
  revert w es. induction fs as [|f fs IH]; intros w es Hrun.
  - cbn in Hrun. by simplify_eq.
  - cbn [run_finalizers] in Hrun.
    destruct (call_finalizer sc f w) as [[[]|e] w1] eqn:Hf;
      [|destruct (run_finalizers sc fs w1) as [es1 w2] eqn:Hrest; simplify_eq];
      (eapply IH in Hrun || eapply IH in Hrest).
    all: destruct f; unfold_py; repeat case_match; simplify_eq; done.
Qed.

End RunConfig.



(** X11. Teardown does not take the options back.  After any run, the
    configuration mapping is the one setup left, or the one the test
    function left if it was called; the class store is the one setup left.
    Only the response class is restored. *)
Theorem teardown_keeps_config sc order h a :
  let s := setup sc order (World h a 0 [] [] []) in
  let r := runtest sc order h a in
  config (the_app r.2)
  = config (match s.1 with
            | inl _ => (test_body sc (the_app s.2)).1
            | inr _ => the_app s.2
            end) ∧
  classes r.2 = classes s.2.
Proof.
  cbn zeta. unfold runtest.
  destruct (setup sc order (World h a 0 [] [] [])) as [[[]|e] w1] eqn:Hrun;
    cbn [fst snd].
  - unfold call_body, teardown. destruct (test_body sc (the_app w1)) as [a' passed].
    cbn [finalizers classes the_app next_ctx trace setattr_log].
    destruct (run_finalizers sc _ _) as [es w3] eqn:Htear.
    by apply run_finalizers_config in Htear.
  - unfold teardown. destruct (run_finalizers sc _ _) as [es w3] eqn:Htear.
    by apply run_finalizers_config in Htear.
Qed.

(** The option of the marker is still in the mapping after the run of a
    test that leaves the mapping alone. *)
Example option_outlives_test :
  config (the_app (runtest unmarked_test spec_order sample_store
                     (the_app (runtest failing_test spec_order sample_store sample_app).2)).2)
  !! "DEBUG" = Some (VBool false).
Proof. vm_compute. reflexivity. Qed.

Section RunClasses.

Variable sc : scenario.
Variable orig : option member.

Lemma run_fixture_patched_inv f w r w' :
  run_fixture sc f w = (r, w') → patched_inv orig w → patched_inv orig w'.
Proof.
  intros Hrun (Hok & Hns & Hjson). unfold patched_inv.
  destruct f;
    [| |apply configure_frame in Hrun as (-> & _ & _ & -> & _ & ->); done].
  - destruct (augment_shape _ _ Hok Hns) as (a & new & Hmk & _ & Hok' & Hns').
    destruct (augment_result_json _ _ Hok Hns) as (a2 & h2 & Hmk2 & Hjson2).
    rewrite Hmk in Hmk2. simplify_eq.
    unfold_py.
    destruct (requests_app sc); cbn [negb] in Hrun; [|by simplify_eq].
    destruct (app_fixture_ok sc); [|by simplify_eq].
    cbn [classes the_app response_class] in Hrun. rewrite Hmk in Hrun.
    simplify_eq. cbn [classes the_app response_class setattr_log].
    do 2 (split; [done|]). rewrite Hjson2, Hjson. unfold json_target.
    by destruct (setattr_log w), orig.
  - unfold_py.
    destruct (requests_app sc), (app_fixture_ok sc), (context_ok sc), (push_ok sc);
      cbn in Hrun; simplify_eq; done.
Qed.

Lemma setup_patched_inv order w r w' :
  setup sc order w = (r, w') → patched_inv orig w → patched_inv orig w'.
Proof.
  revert w. induction order as [|f order IH]; intros w Hrun Hinv.
  - cbn [setup] in Hrun. unfold ret in Hrun. by simplify_eq.
  - cbn [setup] in Hrun. unfold bind in Hrun.
    destruct (run_fixture sc f w) as [[[]|e] w1] eqn:Hf.
    + eapply IH; [done|]. by eapply run_fixture_patched_inv.
    + simplify_eq. by eapply run_fixture_patched_inv.
Qed.

Lemma setup_slot_resolves order h a w1 :
  requests_app sc = true → monkeypatch_response_class ∈ order →
  store_ok h = true → new_style h (response_class a) = true →
  lookup_attr h (response_class a) "json" = orig →
  setup sc order (World h a 0 [] [] []) = (inl (), w1) →
  store_ok (classes w1) = true ∧
  new_style (classes w1) (response_class (the_app w1)) = true ∧
  lookup_attr (classes w1) (response_class (the_app w1)) "json" = json_target orig.
Proof.
  intros Happ Hin Hok Hns Horig Hrun.
  pose proof (setup_records sc order _ _ Happ Hin Hrun) as Hlog.
  apply setup_patched_inv in Hrun as (Hok1 & Hns1 & Hjson1); [|done].
  do 2 (split; [done|]). rewrite Hjson1. by destruct (setattr_log w1).
Qed.

End RunClasses.

(** X12. The test function works on the augmented class: on a test that
    requests [app], when setup returns (with [_monkeypatch_response_class]
    among the fixtures), the response class of the application handed to
    the test function is a new-style class of the store that resolves
    [json], to the member the application's own response class resolved
    if it resolved one and to the mixin's property if not. *)
Theorem test_sees_json_accessor sc order h a :
  requests_app sc = true →
  monkeypatch_response_class ∈ order →
  store_ok h = true → new_style h (response_class a) = true →
  (setup sc order (World h a 0 [] [] [])).1 = inl () →
  let w1 := (setup sc order (World h a 0 [] [] [])).2 in
  new_style (classes w1) (response_class (the_app w1)) = true ∧
  lookup_attr (classes w1) (response_class (the_app w1)) "json"
  = match lookup_attr h (response_class a) "json" with
    | Some m => Some m
    | None => Some MJsonProperty
    end.
Proof.
  intros Happ Hin Hok Hns Hsetup.
  destruct (setup sc order (World h a 0 [] [] [])) as [r w1] eqn:Hrun.
  cbn [fst snd] in *. subst r.
  by destruct (setup_slot_resolves sc _ order h a w1 Happ Hin Hok Hns eq_refl Hrun)
    as (_ & ? & ?).
Qed.

Lemma test_sees_json_accessor_sample :
  requests_app failing_test = true ∧ monkeypatch_response_class ∈ spec_order ∧
  store_ok sample_store = true ∧
  new_style sample_store (response_class sample_app) = true ∧
  (setup failing_test spec_order (World sample_store sample_app 0 [] [] [])).1 = inl () ∧
  let w1 := (setup failing_test spec_order (World sample_store sample_app 0 [] [] [])).2 in
  new_style (classes w1) (response_class (the_app w1)) = true ∧
  lookup_attr (classes w1) (response_class (the_app w1)) "json"
  = match lookup_attr sample_store (response_class sample_app) "json" with
    | Some m => Some m
    | None => Some MJsonProperty
    end.
Proof.
  split; [reflexivity|]. split; [repeat constructor|].
  do 3 (split; [reflexivity|]).
  apply (test_sees_json_accessor failing_test spec_order sample_store sample_app);
    try reflexivity.
  repeat constructor.
Defined.

Section RunContexts.

Variable sc : scenario.

(** What teardown adds to the trace: calls of [pop] and nothing else. *)
Lemma run_finalizers_events fs w es w' :
  run_finalizers sc fs w = (es, w') →
  ∃ post, trace w' = trace w ++ post ∧ push_calls post = [] ∧
          (EvBody ∉ post) ∧ pop_calls post = pending_pops fs.
Proof.
  revert w es. induction fs as [|f fs IH]; intros w es Hrun.
  - cbn in Hrun. simplify_eq. exists []. rewrite app_nil_r.
    repeat split; try done. by intros ?%elem_of_nil.
  - cbn [run_finalizers] in Hrun.
    assert (∃ ev, trace (call_finalizer sc f w).2 = trace w ++ ev ∧
                  push_calls ev = [] ∧ (EvBody ∉ ev) ∧
                  pop_calls ev = pending_pops [f]) as (ev & Hev & Hpu & Hb & Hpo).
    { destruct f; unfold_py; cbn.
      - destruct (pop_ok sc); (eexists [_]; split; [reflexivity|]);
          repeat split; try done; by intros ?%list_elem_of_singleton.
      - exists []. rewrite app_nil_r. repeat split; try done.
        by intros ?%elem_of_nil. }
    destruct (call_finalizer sc f w) as [[[]|e] w1] eqn:Hf;
      [|destruct (run_finalizers sc fs w1) as [es1 w2] eqn:Hrest; simplify_eq];
      (apply IH in Hrun as (post & Ht & Hpu' & Hb' & Hpo')
       || apply IH in Hrest as (post & Ht & Hpu' & Hb' & Hpo')).
    all: cbn [snd] in Hev; exists (ev ++ post); rewrite Ht, Hev, <-app_assoc.
    all: rewrite push_calls_app, pop_calls_app, Hpu, Hpu', Hpo, Hpo'.
    all: repeat split; try done;
      [by intros [?|?]%elem_of_app|by destruct f].
Qed.

(** An activation stays in the trace during setup, and the fixture makes
    one when it returns on a test that requests [app]. *)
Lemma run_fixture_activation_stays f w r w' :
  run_fixture sc f w = (r, w') →
  activated (trace w) ≠ [] → activated (trace w') ≠ [].
Proof.
  intros Hrun Hact.
  destruct f;
    [| |apply configure_frame in Hrun as (_ & _ & -> & _); done].
  all: unfold_py; repeat case_match; simplify_eq; cbn [trace];
    rewrite ?activated_app; try done.
  all: by intros [? _]%app_eq_nil.
Qed.

Lemma push_fixture_activates w w' :
  requests_app sc = true →
  run_fixture sc push_application_context w = (inl (), w') →
  activated (trace w') ≠ [].
Proof.
  intros Happ Hrun. unfold_py. rewrite Happ in Hrun. cbn [negb] in Hrun.
  repeat case_match; simplify_eq; cbn [trace]; rewrite activated_app.
  by intros [_ ?]%app_eq_nil.
Qed.

Lemma setup_activates order w w' :
  requests_app sc = true →
  setup sc order w = (inl (), w') →
  push_application_context ∈ order ∨ activated (trace w) ≠ [] →
  activated (trace w') ≠ [].
Proof.
  intros Happ. revert w. induction order as [|f order IH]; intros w Hrun Hpre.
  - cbn [setup] in Hrun. unfold ret in Hrun. simplify_eq.
    destruct Hpre as [?%elem_of_nil|?]; done.
  - cbn [setup] in Hrun. unfold bind in Hrun.
    destruct (run_fixture sc f w) as [[[]|e] w1] eqn:Hf; [|done].
    eapply IH; [done|].
    destruct Hpre as [[<-|?]%elem_of_cons|Hpre]; [right|by left|right].
    + by eapply push_fixture_activates.
    + by eapply run_fixture_activation_stays.
Qed.

(** Each call of a fixture calls [push] at most once, and only
    [_push_application_context] calls it. *)
Lemma run_fixture_push_count f w r w' :
  run_fixture sc f w = (r, w') →
  length (push_calls (trace w')) ≤
  length (push_calls (trace w)) +
  length (filter (λ g, g = push_application_context) [f]).
Proof.
  intros Hrun.
  destruct f;
    [| |apply configure_frame in Hrun as (_ & _ & -> & _); cbn; lia].
  all: unfold_py; repeat case_match; simplify_eq; cbn [trace];
    rewrite ?push_calls_app, ?length_app; cbn; rewrite ?decide_True by done;
    cbn; lia.
Qed.

Lemma setup_push_count order w r w' :
  setup sc order w = (r, w') →
  length (push_calls (trace w')) ≤
  length (push_calls (trace w)) +
  length (filter (λ g, g = push_application_context) order).
Proof.
  revert w. induction order as [|f order IH]; intros w Hrun.
  - cbn [setup] in Hrun. unfold ret in Hrun. simplify_eq. cbn. lia.
  - cbn [setup] in Hrun. unfold bind in Hrun.
    change (f :: order) with ([f] ++ order). rewrite filter_app, length_app.
    destruct (run_fixture sc f w) as [[[]|e] w1] eqn:Hf.
    + apply IH in Hrun. apply run_fixture_push_count in Hf. lia.
    + simplify_eq. apply run_fixture_push_count in Hf. lia.
Qed.

End RunContexts.

(** X13. The context is active for the whole call of the test function: on
    a test that requests [app], when setup returns (with
    [_push_application_context] among the fixtures), the trace of the run
    is the trace of setup, the call of the test function, and the trace of
    teardown; setup holds a [push] that returned and no [pop], and
    teardown holds no [push] and pops the activated contexts. *)
Theorem context_active_during_test sc order h a :
  requests_app sc = true →
  push_application_context ∈ order →
  (setup sc order (World h a 0 [] [] [])).1 = inl () →
  ∃ post,
    let pre := trace (setup sc order (World h a 0 [] [] [])).2 in
    trace (runtest sc order h a).2 = pre ++ EvBody :: post ∧
    activated pre ≠ [] ∧ pop_calls pre = [] ∧ (EvBody ∉ pre) ∧
    push_calls post = [] ∧ (EvBody ∉ post) ∧
    pop_calls post = reverse (activated pre).
Proof.
  intros Happ Hin Hsetup. unfold runtest.
  destruct (setup sc order (World h a 0 [] [] [])) as [r w1] eqn:Hrun.
  cbn [fst snd] in *. subst r.
  pose proof (setup_activates sc order _ _ Happ Hrun (or_introl Hin)) as Hact.
  assert (ctx_inv (World h a 0 [] [] [])) as Hinv0.
  { repeat split; cbn; try done; [by intros ?%elem_of_nil|apply NoDup_nil_2]. }
  apply setup_ctx_inv in Hrun as (Hpop & Hbody & Hpend & _); [|done].
  unfold call_body, teardown. destruct (test_body sc (the_app w1)) as [a' passed].
  cbn [finalizers classes the_app next_ctx trace setattr_log].
  destruct (run_finalizers sc _ _) as [es w3] eqn:Htear.
  apply run_finalizers_events in Htear as (post & Ht & Hpu & Hb & Hpo).
  cbn [snd trace] in *. exists post. rewrite Ht, <-app_assoc, Hpo, Hpend. done.
Qed.

Lemma context_active_during_test_sample :
  requests_app failing_test = true ∧ push_application_context ∈ spec_order ∧
  (setup failing_test spec_order (World sample_store sample_app 0 [] [] [])).1 = inl () ∧
  ∃ post,
    let pre := trace (setup failing_test spec_order
                        (World sample_store sample_app 0 [] [] [])).2 in
    trace (runtest failing_test spec_order sample_store sample_app).2
    = pre ++ EvBody :: post ∧
    activated pre ≠ [] ∧ pop_calls pre = [] ∧ (EvBody ∉ pre) ∧
    push_calls post = [] ∧ (EvBody ∉ post) ∧
    pop_calls post = reverse (activated pre).
Proof.
  split; [reflexivity|]. split; [repeat constructor|]. split; [reflexivity|].
  apply (context_active_during_test failing_test spec_order sample_store sample_app);
    [reflexivity|repeat constructor|reflexivity].
Defined.

(** X14. The plugin activates at most one context in a run: when the
    runner sets up each fixture once, [push] is called at most once, so
    that at most one context is activated and at most one popped. *)
Theorem at_most_one_push sc order h a :
  NoDup order →
  let tr := trace (runtest sc order h a).2 in
  length (push_calls tr) ≤ 1 ∧ length (activated tr) ≤ 1 ∧
  length (pop_calls tr) ≤ 1.
Proof.
  intros Hnd tr.
  assert (length (filter (λ g, g = push_application_context) order) ≤ 1) as Hcount.
  { clear -Hnd. induction Hnd as [|f order Hf _ IH]; [cbn; lia|].
    destruct (decide (f = push_application_context)) as [->|Hne].
    - rewrite filter_cons_True by done.
      rewrite (filter_none _ order) by (intros g Hg ->; done). cbn. lia.
    - by rewrite filter_cons_False. }
  assert (length (push_calls tr) ≤ 1) as Hpush.
  { unfold tr, runtest.
    destruct (setup sc order (World h a 0 [] [] [])) as [[[]|e] w1] eqn:Hrun;
      apply setup_push_count in Hrun; cbn [trace push_calls omap length] in Hrun.
    - unfold call_body, teardown. destruct (test_body sc (the_app w1)) as [a' passed].
      cbn [finalizers classes the_app next_ctx trace setattr_log].
      destruct (run_finalizers sc _ _) as [es w3] eqn:Htear.
      apply run_finalizers_trace in Htear as (_ & _ & Hp & _). cbn [snd trace] in *.
      rewrite Hp, push_calls_app. cbn in *. rewrite app_nil_r. lia.
    - unfold teardown. destruct (run_finalizers sc _ _) as [es w3] eqn:Htear.
      apply run_finalizers_trace in Htear as (_ & _ & Hp & _). cbn [snd trace] in *.
      rewrite Hp. cbn in *. lia. }
  assert (length (activated tr) ≤ length (push_calls tr)) as Hact.
  { generalize tr. clear. intros tr. unfold activated, push_calls.
    induction tr as [|[c []|c ok|] tr IH]; cbn in *; lia. }
  destruct (runtest_contexts sc order h a) as [Hpop _]. fold tr in Hpop.
  rewrite Hpop, length_reverse. lia.
Qed.

Lemma at_most_one_push_sample :
  NoDup spec_order ∧
  let tr := trace (runtest failing_test spec_order sample_store sample_app).2 in
  length (push_calls tr) ≤ 1 ∧ length (activated tr) ≤ 1 ∧
  length (pop_calls tr) ≤ 1.
Proof.
  assert (NoDup spec_order) as Hnd by (by apply (bool_decide_unpack _)).
  split; [exact Hnd|].
  apply (at_most_one_push failing_test spec_order sample_store sample_app Hnd).
Defined.

(** X15. When the [app] fixture raises on a test that requests it, the
    plugin does nothing: the run reports that exception as an error of
    setup, the test function is not called, no context is created or
    pushed, no class is created, and the application is left as it was. *)
Theorem app_fixture_error_touches_nothing sc order h a :
  requests_app sc = true → app_fixture_ok sc = false → order ≠ [] →
  let r := runtest sc order h a in
  r.1 = Report (Some AppFixtureError) None [] ∧
  the_app r.2 = a ∧ classes r.2 = h ∧ trace r.2 = [] ∧ next_ctx r.2 = 0.
Proof.
  intros Happ Hbad Horder. destruct order as [|f order]; [done|].
  unfold runtest. cbn [setup]. unfold bind.
  destruct f; unfold_py; rewrite Happ, Hbad; cbn; by destruct a.
Qed.

Lemma app_fixture_error_touches_nothing_sample :
  requests_app app_fixture_raises = true ∧
  app_fixture_ok app_fixture_raises = false ∧ spec_order ≠ [] ∧
  let r := runtest app_fixture_raises spec_order sample_store sample_app in
  r.1 = Report (Some AppFixtureError) None [] ∧
  the_app r.2 = sample_app ∧ classes r.2 = sample_store ∧ trace r.2 = [] ∧
  next_ctx r.2 = 0.
Proof.
  do 2 (split; [reflexivity|]). split; [discriminate|].
  apply (app_fixture_error_touches_nothing app_fixture_raises spec_order
           sample_store sample_app); [reflexivity|reflexivity|discriminate].
Defined.

Section RunStore.

Variable sc : scenario.

Lemma setup_app l1 l2 w :
  setup sc (l1 ++ l2) w =
  match setup sc l1 w with
  | (inl _, w1) => setup sc l2 w1
  | (inr e, w1) => (inr e, w1)
  end.
Proof.
  revert w. induction l1 as [|f l1 IH]; intros w; [done|].
  rewrite <-app_comm_cons. cbn [setup]. unfold bind.
  destruct (run_fixture sc f w) as [[[]|e] w1]; [apply IH|done].
Qed.

(** Only [_monkeypatch_response_class] touches the class store and the
    slot. *)
Lemma run_fixture_store f w r w' :
  run_fixture sc f w = (r, w') → f ≠ monkeypatch_response_class →
  classes w' = classes w ∧
  response_class (the_app w') = response_class (the_app w).
Proof.
  intros Hrun Hf.
  destruct f; [done| |apply configure_frame in Hrun as (-> & _ & _ & _ & _ & ->); done].
  unfold_py; repeat case_match; simplify_eq; done.
Qed.

Lemma setup_store order w r w' :
  monkeypatch_response_class ∉ order →
  setup sc order w = (r, w') →
  classes w' = classes w ∧
  response_class (the_app w') = response_class (the_app w).
Proof.
  revert w. induction order as [|f order IH]; intros w Hnot Hrun.
  - cbn [setup] in Hrun. unfold ret in Hrun. by simplify_eq.
  - cbn [setup] in Hrun. unfold bind in Hrun.
    apply not_elem_of_cons in Hnot as [Hf Hnot].
    destruct (run_fixture sc f w) as [[[]|e] w1] eqn:Hrf.
    + apply IH in Hrun as [-> ->]; [|done]. by eapply run_fixture_store.
    + simplify_eq. by eapply run_fixture_store.
Qed.

Lemma monkeypatch_fixture_creates w w' :
  requests_app sc = true →
  store_ok (classes w) = true →
  new_style (classes w) (response_class (the_app w)) = true →
  own_member (classes w) (response_class (the_app w)) "json" = None →
  run_fixture sc monkeypatch_response_class w = (inl (), w') →
  ∃ cls, classes w' = classes w ++ [cls] ∧
         cls_bases cls = [response_class (the_app w); JSONResponse] ∧
         response_class (the_app w') = length (classes w).
Proof.
  intros Happ Hok Hns Hown Hrun.
  destruct (augment_synthesises _ _ Hok Hns Hown)
    as (k & L & Hk & Hmro & Hnd & Hlt & Hmk).
  unfold_py. rewrite Happ in Hrun. cbn [negb] in Hrun.
  destruct (app_fixture_ok sc); [|done].
  cbn [classes the_app response_class] in Hrun. rewrite Hmk in Hrun.
  simplify_eq. cbn [classes the_app response_class]. by eexists.
Qed.

End RunStore.

(** X16. One class for each test, and none taken away: on a test that
    requests [app], on an application whose response class has no [json]
    of its own, when the runner sets up each fixture once and setup
    returns, the class store after the run is the store before it followed
    by one class, the wrapper of the application's response class. *)
Theorem one_class_per_test sc order h a :
  requests_app sc = true →
  NoDup order → monkeypatch_response_class ∈ order →
  store_ok h = true → new_style h (response_class a) = true →
  own_member h (response_class a) "json" = None →
  (setup sc order (World h a 0 [] [] [])).1 = inl () →
  ∃ cls, classes (runtest sc order h a).2 = h ++ [cls] ∧
         cls_bases cls = [response_class a; JSONResponse].
Proof.
  intros Happ Hnd Hin Hok Hns Hown Hsetup.
  assert (classes (runtest sc order h a).2
          = classes (setup sc order (World h a 0 [] [] [])).2) as ->.
  { unfold runtest.
    destruct (setup sc order (World h a 0 [] [] [])) as [[[]|e] w1] eqn:Hrun;
      cbn [fst snd].
    - unfold call_body, teardown. destruct (test_body sc (the_app w1)) as [a' passed].
      cbn [finalizers classes the_app next_ctx trace setattr_log].
      destruct (run_finalizers sc _ _) as [es w3] eqn:Htear.
      cbn [snd]. by apply run_finalizers_config in Htear as [_ ->].
    - unfold teardown. destruct (run_finalizers sc _ _) as [es w3] eqn:Htear.
      cbn [snd]. by apply run_finalizers_config in Htear as [_ ->]. }
  apply list_elem_of_split in Hin as (pre & post & ->).
  apply NoDup_app in Hnd as (_ & Hpre & [Hpost _]%NoDup_cons).
  assert (monkeypatch_response_class ∉ pre) as Hpre'.
  { intros Hin. apply (Hpre _ Hin). by left. }
  rewrite setup_app in Hsetup |- *.
  destruct (setup sc pre (World h a 0 [] [] [])) as [[[]|e] w1] eqn:Hrun1; [|done].
  apply setup_store in Hrun1 as [Hc1 Hs1]; [|done]. cbn in Hc1, Hs1.
  cbn [setup] in Hsetup |- *. unfold bind in Hsetup |- *.
  destruct (run_fixture sc monkeypatch_response_class w1) as [[[]|e] w2] eqn:Hrun2;
    [|done].
  apply monkeypatch_fixture_creates in Hrun2 as (cls & Hc2 & Hb2 & _);
    rewrite ?Hc1, ?Hs1; try done.
  destruct (setup sc post w2) as [r w3] eqn:Hrun3.
  apply setup_store in Hrun3 as [Hc3 _]; [|done].
  exists cls. cbn [snd]. rewrite Hc3, Hc2, Hc1. by rewrite Hs1 in Hb2.
Qed.

Lemma one_class_per_test_sample :
  requests_app failing_test = true ∧ NoDup spec_order ∧
  monkeypatch_response_class ∈ spec_order ∧
  store_ok sample_store = true ∧
  new_style sample_store (response_class sample_app) = true ∧
  own_member sample_store (response_class sample_app) "json" = None ∧
  (setup failing_test spec_order (World sample_store sample_app 0 [] [] [])).1 = inl () ∧
  ∃ cls, classes (runtest failing_test spec_order sample_store sample_app).2
         = sample_store ++ [cls] ∧
         cls_bases cls = [response_class sample_app; JSONResponse].
Proof.
  assert (NoDup spec_order) as Hnd by (by apply (bool_decide_unpack _)).
  split; [reflexivity|]. split; [exact Hnd|]. split; [repeat constructor|].
  do 4 (split; [reflexivity|]).
  apply (one_class_per_test failing_test spec_order sample_store sample_app);
    try reflexivity; [exact Hnd|repeat constructor].
Defined.

End PluginMore.
